(** * LockFreeQueue.hpp: a shallow embedding of the queue and its node
      reclamation, run one operation at a time.

    The heap is a list of cells indexed by address; [new] appends a cell and
    never reuses an address, [delete] turns a cell into [Freed], and every
    access to a node goes through [deref], which faults on a freed cell.
    Each member function of the source is a computation in a state-and-fault
    monad over the heap and the two entry points [head_] and [tail_].  The
    [while (true)] loops take a bound on their number of iterations.
    [pop] is also given one atomic operation at a time, with the other
    threads acting in between. *)

From stdpp Require Import base decidable option list numbers.
From Stdlib Require Import ZArith Lia.

Local Open Scope Z_scope.

(** ** Addresses and unsigned counters *)

Definition loc := nat.

(** [Node<T>*]: [None] is [nullptr]. *)
Definition ptr := option loc.

(** [unsigned int] is 32 bits wide; [fetch_add] and [fetch_sub] wrap. *)
Definition UINT_MODULUS : Z := 2 ^ 32.

Definition wrap (z : Z) : Z := z `mod` UINT_MODULUS.

(** The two atomic entry points a [claim_node] or a CAS can be aimed at. *)
Inductive slot := Head | Tail.

(** What an operation can do wrong with memory. *)
Inductive fault :=
| NullDeref
| UseAfterFree (l : loc)
| DoubleFree (l : loc)
| WildPointer (l : loc).

Section Queue.

Context {T : Type}.

(** ** Data model *)

(** [struct Node].  [data] is [None] while the slot has never been assigned:
    the default constructor leaves it alone. *)
Record Node := mkNode {
  data : option T;
  next : ptr;
  internal_ref_count : Z;
  external_ref_count : Z
}.

(** [Node(const T& value)] *)
Definition Node_of_value (value : T) : Node :=
  {| data := Some value; next := None;
     internal_ref_count := 1; external_ref_count := 0 |}.

(** [Node()] *)
Definition Node_default : Node :=
  {| data := None; next := None;
     internal_ref_count := 0; external_ref_count := 0 |}.

Definition set_next (p : ptr) (n : Node) : Node :=
  {| data := data n; next := p;
     internal_ref_count := internal_ref_count n;
     external_ref_count := external_ref_count n |}.

Definition set_internal (z : Z) (n : Node) : Node :=
  {| data := data n; next := next n;
     internal_ref_count := z;
     external_ref_count := external_ref_count n |}.

Definition set_external (z : Z) (n : Node) : Node :=
  {| data := data n; next := next n;
     internal_ref_count := internal_ref_count n;
     external_ref_count := z |}.

Inductive cell :=
| Live (n : Node)
| Freed.

(** The heap together with the two members of [class LockFreeQueue]. *)
Record state := mkState {
  heap : list cell;
  head_ : ptr;
  tail_ : ptr
}.

Definition set_heap (h : list cell) (s : state) : state :=
  {| heap := h; head_ := head_ s; tail_ := tail_ s |}.

Definition set_slot (sl : slot) (p : ptr) (s : state) : state :=
  match sl with
  | Head => {| heap := heap s; head_ := p; tail_ := tail_ s |}
  | Tail => {| heap := heap s; head_ := head_ s; tail_ := p |}
  end.

Definition get_slot (sl : slot) (s : state) : ptr :=
  match sl with
  | Head => head_ s
  | Tail => tail_ s
  end.

(** No queue constructed yet, nothing allocated. *)
Definition no_queue : state := {| heap := []; head_ := None; tail_ := None |}.

(** ** The monad *)

Inductive outcome (A : Type) :=
| Done (a : A) (s : state)
| Fault (f : fault)
| OutOfFuel.

Arguments Done {A} a s.
Arguments Fault {A} f.
Arguments OutOfFuel {A}.

Definition M (A : Type) : Type := state -> outcome A.

Definition ret {A} (a : A) : M A := fun s => Done a s.

Definition bind {A B} (c : M A) (k : A -> M B) : M B :=
  fun s =>
    match c s with
    | Done a s' => k a s'
    | Fault f => Fault f
    | OutOfFuel => OutOfFuel
    end.

Definition out_of_fuel {A} : M A := fun _ => OutOfFuel.

Notation "'let*' x ':=' c 'in' k" := (bind c (fun x => k))
  (at level 10, x name, c at level 200, k at level 200).
Notation "'let*' ' p ':=' c 'in' k" := (bind c (fun p => k))
  (at level 10, p pattern, c at level 200, k at level 200).

(** ** Memory primitives *)

(** [new Node<T>...]: a fresh address, one past the last one handed out. *)
Definition new (n : Node) : M loc :=
  fun s => Done (length (heap s)) (set_heap (heap s ++ [Live n]) s).

(** Every [node->...] starts here. *)
Definition deref (p : ptr) : M (loc * Node) :=
  fun s =>
    match p with
    | None => Fault NullDeref
    | Some l =>
        match heap s !! l with
        | Some (Live n) => Done (l, n) s
        | Some Freed => Fault (UseAfterFree l)
        | None => Fault (WildPointer l)
        end
    end.

Definition write (l : loc) (n : Node) : M unit :=
  fun s => Done tt (set_heap (<[l := Live n]> (heap s)) s).

(** [delete node]; deleting [nullptr] does nothing. *)
Definition delete (p : ptr) : M unit :=
  fun s =>
    match p with
    | None => Done tt s
    | Some l =>
        match heap s !! l with
        | Some (Live _) => Done tt (set_heap (<[l := Freed]> (heap s)) s)
        | Some Freed => Fault (DoubleFree l)
        | None => Fault (WildPointer l)
        end
    end.

(** ** Atomic operations, each returning what the C++ one returns *)

Definition load_slot (sl : slot) : M ptr := fun s => Done (get_slot sl s) s.

Definition store_slot (sl : slot) (p : ptr) : M unit :=
  fun s => Done tt (set_slot sl p s).

(** [compare_exchange_strong(expected, desired)]: the flag, and the value
    [expected] holds afterwards (the current value, when the exchange
    failed). *)
Definition cas_slot (sl : slot) (expected desired : ptr) : M (bool * ptr) :=
  let* cur := load_slot sl in
  if decide (cur = expected)
  then let* _ := store_slot sl desired in ret (true, expected)
  else ret (false, cur).

Definition load_next (p : ptr) : M ptr :=
  let* '(_, n) := deref p in ret (next n).

Definition cas_next (p : ptr) (expected desired : ptr) : M (bool * ptr) :=
  let* '(l, n) := deref p in
  if decide (next n = expected)
  then let* _ := write l (set_next desired n) in ret (true, expected)
  else ret (false, next n).

Definition load_data (p : ptr) : M (option T) :=
  let* '(_, n) := deref p in ret (data n).

Definition load_internal (p : ptr) : M Z :=
  let* '(_, n) := deref p in ret (internal_ref_count n).

Definition load_external (p : ptr) : M Z :=
  let* '(_, n) := deref p in ret (external_ref_count n).

Definition store_internal (p : ptr) (z : Z) : M unit :=
  let* '(l, n) := deref p in write l (set_internal z n).

(** [fetch_add] and [fetch_sub] return the value before the update. *)
Definition fetch_add_internal (p : ptr) (k : Z) : M Z :=
  let* '(l, n) := deref p in
  let* _ := write l (set_internal (wrap (internal_ref_count n + k)) n) in
  ret (internal_ref_count n).

Definition fetch_sub_internal (p : ptr) (k : Z) : M Z :=
  let* '(l, n) := deref p in
  let* _ := write l (set_internal (wrap (internal_ref_count n - k)) n) in
  ret (internal_ref_count n).

Definition fetch_add_external (p : ptr) (k : Z) : M Z :=
  let* '(l, n) := deref p in
  let* _ := write l (set_external (wrap (external_ref_count n + k)) n) in
  ret (external_ref_count n).

Definition fetch_sub_external (p : ptr) (k : Z) : M Z :=
  let* '(l, n) := deref p in
  let* _ := write l (set_external (wrap (external_ref_count n - k)) n) in
  ret (external_ref_count n).

(** ** Construction *)

(** [LockFreeQueue<T>::LockFreeQueue()] *)
Definition LockFreeQueue : M unit :=
  let* dummy := new Node_default in
  let* _ := store_internal (Some dummy) 1 in
  let* _ := store_slot Head (Some dummy) in
  store_slot Tail (Some dummy).

(** ** Reclamation *)

(** [release_node_ref] *)
Definition release_node_ref (node : ptr) : M unit :=
  match node with
  | None => ret tt
  | Some _ =>
      let* prev_ext_ref := fetch_sub_external node 1 in
      if decide (prev_ext_ref = 1)
      then
        let* int := load_internal node in
        if decide (int = 0) then delete node else ret tt
      else ret tt
  end.

(** [release_internal_counter] *)
Definition release_internal_counter (node : ptr) : M unit :=
  match node with
  | None => ret tt
  | Some _ =>
      let* prev := fetch_sub_internal node 1 in
      if decide (prev = 1)
      then
        let* ext := load_external node in
        if decide (ext = 0) then delete node else ret tt
      else ret tt
  end.

(** [free_external_counter] *)
Definition free_external_counter (node : ptr) : M unit :=
  match node with
  | None => ret tt
  | Some _ =>
      let* prev_count := fetch_sub_external node 1 in
      if decide (prev_count = 1)
      then
        let* prev_int := fetch_sub_internal node 1 in
        if decide (prev_int = 1) then delete node else ret tt
      else ret tt
  end.

(** [claim_node] *)
Definition claim_node (p_node : slot) : M ptr :=
  let* node := load_slot p_node in
  match node with
  | Some _ => let* _ := fetch_add_external node 1 in ret node
  | None => ret node
  end.

(** ** push *)

(** The [while (true)] of [push], for the node [push] allocated. *)
Fixpoint push_loop (fuel : nat) (node : ptr) : M unit :=
  match fuel with
  | O => out_of_fuel
  | S fuel' =>
      let* last := load_slot Tail in
      let* next := load_next last in
      let* cur := load_slot Tail in
      if decide (last = cur)
      then
        match next with
        | None =>
            let* '(linked, _) := cas_next last next node in
            if linked : bool
            then
              let* _ := fetch_add_internal node 1 in
              let* _ := cas_slot Tail last node in
              let* _ := release_internal_counter node in
              ret tt
            else push_loop fuel' node
        | Some _ =>
            let* _ := cas_slot Tail last next in
            push_loop fuel' node
        end
      else push_loop fuel' node
  end.

(** [push(const T& value)].  The node comes from [new Node<T>{}], the default
    constructor; the body never mentions [value]. *)
Definition push (fuel : nat) (value : T) : M unit :=
  let* node := new Node_default in
  push_loop fuel (Some node).

(** ** pop *)

(** [pop(T& value)]: the flag returned, and the contents of the caller's
    output object when [pop] returns.  The one assignment of the source is
    spelled [result = next->data], a name with no declaration; it is read
    here as the assignment to the parameter. *)
Fixpoint pop (fuel : nat) (value : option T) : M (bool * option T) :=
  match fuel with
  | O => out_of_fuel
  | S fuel' =>
      let* first := claim_node Head in
      let* _ := fetch_add_external first 1 in
      let* next := load_next first in
      let* last := claim_node Tail in
      if decide (first = last)
      then
        let* _ := free_external_counter last in
        match next with
        | None =>
            let* _ := free_external_counter first in
            ret (false, value)
        | Some _ =>
            let* _ := cas_slot Tail last next in
            let* _ := free_external_counter first in
            pop fuel' value
        end
      else
        match next with
        | Some _ =>
            let* '(advanced, first) := cas_slot Head first next in
            if advanced : bool
            then
              let* payload := load_data next in
              let* _ := free_external_counter last in
              let* _ := free_external_counter first in
              ret (true, payload)
            else
              let* _ := free_external_counter last in
              let* _ := free_external_counter first in
              pop fuel' value
        | None =>
            let* _ := free_external_counter last in
            let* _ := free_external_counter first in
            pop fuel' value
        end
  end.

(** ** Teardown *)

(** [while (pop(dummy_value)) {}] *)
Fixpoint drain (fuel : nat) (dummy_value : option T) : M unit :=
  match fuel with
  | O => out_of_fuel
  | S fuel' =>
      let* '(found, dummy_value) := pop (S fuel') dummy_value in
      if found : bool then drain fuel' dummy_value else ret tt
  end.

(** [LockFreeQueue<T>::~LockFreeQueue()] *)
Definition destroy (fuel : nat) : M unit :=
  let* _ := drain fuel None in
  let* last_node := load_slot Head in
  delete last_node.

(** ** pop among other threads *)

(** What the other threads do to the shared state while this one runs: one
    entry for each of its atomic operations, applied just before that
    operation, in order.  Any change at all may stand in an entry; past the
    end of the list nobody interferes. *)
Definition schedule : Type := list (state -> state).

(** Computations that use up a schedule as they go. *)
Definition I (A : Type) : Type := schedule -> M (A * schedule).

Definition ret_i {A} (a : A) : I A := fun sched => ret (a, sched).

Definition bind_i {A B} (c : I A) (k : A -> I B) : I B :=
  fun sched => let* '(a, sched') := c sched in k a sched'.

Definition out_of_fuel_i {A} : I A := fun _ => out_of_fuel.

(** One atomic operation: the others move first. *)
Definition atomic {A} (c : M A) : I A :=
  fun sched s =>
    match sched with
    | [] => (let* a := c in ret (a, [])) s
    | others :: sched' => (let* a := c in ret (a, sched')) (others s)
    end.

Notation "'let+' x ':=' c 'in' k" := (bind_i c (fun x => k))
  (at level 10, x name, c at level 200, k at level 200).
Notation "'let+' ' p ':=' c 'in' k" := (bind_i c (fun p => k))
  (at level 10, p pattern, c at level 200, k at level 200).

(** [claim_node], one atomic operation at a time. *)
Definition claim_node_interleaved (p_node : slot) : I ptr :=
  let+ node := atomic (load_slot p_node) in
  match node with
  | Some _ => let+ _ := atomic (fetch_add_external node 1) in ret_i node
  | None => ret_i node
  end.

(** [free_external_counter], one atomic operation at a time. *)
Definition free_external_counter_interleaved (node : ptr) : I unit :=
  match node with
  | None => ret_i tt
  | Some _ =>
      let+ prev_count := atomic (fetch_sub_external node 1) in
      if decide (prev_count = 1)
      then
        let+ prev_int := atomic (fetch_sub_internal node 1) in
        if decide (prev_int = 1) then atomic (delete node) else ret_i tt
      else ret_i tt
  end.

(** [pop], one atomic operation at a time: the same body as [pop] above,
    with the other threads free to act before each access to the shared
    state.  Here the compare-exchange on [head_] can fail, and [first] then
    holds the head another thread installed. *)
Fixpoint pop_interleaved (fuel : nat) (value : option T)
  : I (bool * option T) :=
  match fuel with
  | O => out_of_fuel_i
  | S fuel' =>
      let+ first := claim_node_interleaved Head in
      let+ _ := atomic (fetch_add_external first 1) in
      let+ next := atomic (load_next first) in
      let+ last := claim_node_interleaved Tail in
      if decide (first = last)
      then
        let+ _ := free_external_counter_interleaved last in
        match next with
        | None =>
            let+ _ := free_external_counter_interleaved first in
            ret_i (false, value)
        | Some _ =>
            let+ _ := atomic (cas_slot Tail last next) in
            let+ _ := free_external_counter_interleaved first in
            pop_interleaved fuel' value
        end
      else
        match next with
        | Some _ =>
            let+ '(advanced, first) := atomic (cas_slot Head first next) in
            if advanced : bool
            then
              let+ payload := atomic (load_data next) in
              let+ _ := free_external_counter_interleaved last in
              let+ _ := free_external_counter_interleaved first in
              ret_i (true, payload)
            else
              let+ _ := free_external_counter_interleaved last in
              let+ _ := free_external_counter_interleaved first in
              pop_interleaved fuel' value
        | None =>
            let+ _ := free_external_counter_interleaved last in
            let+ _ := free_external_counter_interleaved first in
            pop_interleaved fuel' value
        end
  end.

(** A sentinel and one linked node on which another consumer holds two
    claims. *)
Definition contended_queue (payload : option T) : state :=
  {| heap :=
       [ Live {| data := None; next := Some 1%nat;
                 internal_ref_count := 1; external_ref_count := 0 |};
         Live {| data := payload; next := None;
                 internal_ref_count := 1; external_ref_count := 2 |} ];
     head_ := Some 0%nat;
     tail_ := Some 1%nat |}.

(** The other consumer wins the race for the head: it leaves this thread's
    first six atomic operations alone and moves [head_] to node 1 just
    before the seventh, the compare-exchange of line 200. *)
Definition lost_race : schedule :=
  [ id; id; id; id; id; id; set_slot Head (Some 1%nat) ].

(** ** Programs and states the statements below run *)

(** Scenario A of the specification: three pushes, then four pops. *)
Definition scenario_A (fuel : nat) (v1 v2 v3 : T)
  : M (list (bool * option T)) :=
  let* _ := LockFreeQueue in
  let* _ := push fuel v1 in
  let* _ := push fuel v2 in
  let* _ := push fuel v3 in
  let* r1 := pop fuel None in
  let* r2 := pop fuel None in
  let* r3 := pop fuel None in
  let* r4 := pop fuel None in
  ret [r1; r2; r3; r4].

(** Lines 138 to 158 of [push] on a fresh queue, as one uninterrupted run:
    the node is allocated and linked, it has its internal reference, and
    [tail_] has been swung to it.  The pusher's
    [release_internal_counter(node)] of line 159 has not run yet. *)
Definition push_until_tail_swung : M unit :=
  let* node := new Node_default in
  let* last := load_slot Tail in
  let* next := load_next last in
  let* _ := cas_next last next (Some node) in
  let* _ := fetch_add_internal (Some node) 1 in
  let* _ := cas_slot Tail last (Some node) in
  ret tt.

(** A sentinel at address 0 followed by one linked node at address 1, each
    with one internal reference and no external hold; [payload] is what the
    linked node's [data] holds. *)
Definition one_linked_node (payload : option T) : state :=
  {| heap :=
       [ Live {| data := None; next := Some 1%nat;
                 internal_ref_count := 1; external_ref_count := 0 |};
         Live {| data := payload; next := None;
                 internal_ref_count := 1; external_ref_count := 0 |} ];
     head_ := Some 0%nat;
     tail_ := Some 1%nat |}.

(** A queue whose only node holds one internal reference and one external
    hold. *)
Definition held_node (payload : option T) : Node :=
  {| data := payload; next := None;
     internal_ref_count := 1; external_ref_count := 1 |}.

Definition held_sentinel (payload : option T) : state :=
  {| heap := [Live (held_node payload)];
     head_ := Some 0%nat;
     tail_ := Some 0%nat |}.

(** ** What the tests of the source make of a released node *)

(** The cell [release_node_ref] leaves where the live node [n] was. *)
Definition after_release_node_ref (n : Node) : cell :=
  if decide (external_ref_count n = 1 /\ internal_ref_count n = 0)
  then Freed
  else Live (set_external (wrap (external_ref_count n - 1)) n).

(** The cell [release_internal_counter] leaves. *)
Definition after_release_internal_counter (n : Node) : cell :=
  if decide (internal_ref_count n = 1 /\ external_ref_count n = 0)
  then Freed
  else Live (set_internal (wrap (internal_ref_count n - 1)) n).

(** The cell [free_external_counter] leaves. *)
Definition after_free_external_counter (n : Node) : cell :=
  if decide (external_ref_count n = 1)
  then
    if decide (internal_ref_count n = 1)
    then Freed
    else Live (set_internal (wrap (internal_ref_count n - 1))
                 (set_external (wrap (external_ref_count n - 1)) n))
  else Live (set_external (wrap (external_ref_count n - 1)) n).

(** [count] calls of [pop], one after the other, on the same output
    object; the flags returned, in order. *)
Fixpoint pops (fuel count : nat) (value : option T) : M (list bool) :=
  match count with
  | O => ret []
  | S count' =>
      let* '(found, value) := pop fuel value in
      let* rest := pops fuel count' value in
      ret (found :: rest)
  end.

(** The queue the constructor leaves on an empty heap. *)
Definition fresh_queue : state :=
  {| heap := [Live {| data := None; next := None;
                      internal_ref_count := 1; external_ref_count := 0 |}];
     head_ := Some 0%nat;
     tail_ := Some 0%nat |}.

(** The same two nodes as [one_linked_node], with [tail_] still on the
    sentinel. *)
Definition lagging_tail (payload : option T) : state :=
  {| heap :=
       [ Live {| data := None; next := Some 1%nat;
                 internal_ref_count := 1; external_ref_count := 0 |};
         Live {| data := payload; next := None;
                 internal_ref_count := 1; external_ref_count := 0 |} ];
     head_ := Some 0%nat;
     tail_ := Some 0%nat |}.

(** [fresh_queue] after one [push]. *)
Definition after_one_push : state :=
  {| heap :=
       [ Live {| data := None; next := Some 1%nat;
                 internal_ref_count := 1; external_ref_count := 0 |};
         Freed ];
     head_ := Some 0%nat;
     tail_ := Some 1%nat |}.

(** A heap with the one node [n], referenced by both entry points. *)
Definition single_node (n : Node) : state :=
  {| heap := [Live n]; head_ := Some 0%nat; tail_ := Some 0%nat |}.

(** A node with one external hold and no internal reference. *)
Definition last_hold (payload : option T) : Node :=
  {| data := payload; next := None;
     internal_ref_count := 0; external_ref_count := 1 |}.

(** A node with one internal reference and no external hold. *)
Definition last_reference (payload : option T) : Node :=
  {| data := payload; next := None;
     internal_ref_count := 1; external_ref_count := 0 |}.

(** The sentinel of [one_linked_node] and [lagging_tail]. *)
Definition linking_sentinel : Node :=
  {| data := None; next := Some 1%nat;
     internal_ref_count := 1; external_ref_count := 0 |}.

(** One node with a single external hold, and one node with a single
    internal reference, each alone on the heap. *)
Definition held_once (payload : option T) : state :=
  single_node (last_hold payload).

Definition referenced_once (payload : option T) : state :=
  single_node (last_reference payload).

(** ** Relations between the state before and after an operation *)

(** Whenever [c] returns, the states before and after are related by [R]. *)
Definition keeps {A} (R : state -> state -> Prop) (c : M A) : Prop :=
  forall s a s', c s = Done a s' -> R s s'.

(** Nothing was allocated, and every node that is live afterwards was live
    before with the same payload and the same successor: only reference
    counts were written, and nodes were freed. *)
Definition counts_only (s s' : state) : Prop :=
  length (heap s') = length (heap s) /\
  forall l n', heap s' !! l = Some (Live n') ->
    exists n, heap s !! l = Some (Live n) /\
              data n' = data n /\ next n' = next n.

(** Every cell other than [k] that was there before is still there: a
    freed cell is still freed, and a live node is still live with its
    payload and both counts as they were; its successor is as it was, or
    was absent and is now [k]. *)
Definition old_cells_kept (k : loc) (s s' : state) : Prop :=
  forall l c, l <> k -> heap s !! l = Some c ->
    match c with
    | Freed => heap s' !! l = Some Freed
    | Live n =>
        exists n', heap s' !! l = Some (Live n') /\
                   data n' = data n /\
                   internal_ref_count n' = internal_ref_count n /\
                   external_ref_count n' = external_ref_count n /\
                   (next n' = next n \/
                    next n = None /\ next n' = Some k)
    end.

Definition same_head (s s' : state) : Prop := head_ s' = head_ s.

Definition same_tail (s s' : state) : Prop := tail_ s' = tail_ s.

(** [head_] is where it was, nothing was allocated, and only the cell [k]
    may have lost its node or had its counts or payload written. *)
Definition touched_only (k : loc) (s s' : state) : Prop :=
  head_ s' = head_ s /\
  length (heap s') = length (heap s) /\
  old_cells_kept k s s'.

(** What an iteration of [pop] that does not advance [head_] keeps. *)
Definition pop_kept (s s' : state) : Prop :=
  head_ s' = head_ s /\ counts_only s s'.

(** [payload] is what the node after the head of [s] holds, and [head_] of
    [s'] references that node. *)
Definition popped_from (s : state) (payload : option T) (s' : state)
  : Prop :=
  exists l n x nx,
    head_ s = Some l /\
    heap s !! l = Some (Live n) /\
    next n = Some x /\
    heap s !! x = Some (Live nx) /\
    payload = data nx /\
    head_ s' = Some x.

(** The head node of [s] is live and has no successor. *)
Definition head_is_last (s : state) : Prop :=
  exists l n,
    head_ s = Some l /\
    heap s !! l = Some (Live n) /\
    next n = None.

(** ** What the specification says the releases do *)

(** The cell a node occupies after [releaseExternal], following the words of
    the specification: decrement external; if that brings it to zero and the
    internal count is already zero, free the node. *)
Definition releaseExternal_spec (n : Node) : cell :=
  let n1 := set_external (wrap (external_ref_count n - 1)) n in
  if decide (external_ref_count n1 = 0 /\ internal_ref_count n1 = 0)
  then Freed else Live n1.

(** The same for [releaseInternal]: decrement internal; if it reaches zero
    and the external count is already zero, free the node. *)
Definition releaseInternal_spec (n : Node) : cell :=
  let n1 := set_internal (wrap (internal_ref_count n - 1)) n in
  if decide (internal_ref_count n1 = 0 /\ external_ref_count n1 = 0)
  then Freed else Live n1.

(** The cell a node occupies after [freeExternalAndInternal], following the
    words of the specification: decrement external; if that reaches zero,
    additionally decrement internal, and free if that too reaches zero. *)
Definition freeExternalAndInternal_spec (n : Node) : cell :=
  let n1 := set_external (wrap (external_ref_count n - 1)) n in
  if decide (external_ref_count n1 = 0)
  then
    let n2 := set_internal (wrap (internal_ref_count n1 - 1)) n1 in
    if decide (internal_ref_count n2 = 0) then Freed else Live n2
  else Live n1.

(** The counters of a node are [unsigned int] values. *)
Definition counters_in_range (n : Node) : Prop :=
  0 <= internal_ref_count n < UINT_MODULUS /\
  0 <= external_ref_count n < UINT_MODULUS.

(** * Properties *)

(** ** Arithmetic of the counters *)

Lemma wrap_pred_zero (z : Z) :
  0 <= z < UINT_MODULUS -> wrap (z - 1) = 0 <-> z = 1.
Proof.
  unfold wrap, UINT_MODULUS. intros Hz. split.
  - intros H. destruct (decide (z = 0)) as [->|Hne].
    + vm_compute in H. discriminate.
    + rewrite Z.mod_small in H by lia. lia.
  - intros ->. reflexivity.
Qed.

(** ** Stepping the monad *)

Lemma bind_Done {A B} (c : M A) (k : A -> M B) s b s' :
  bind c k s = Done b s' ->
  exists a s1, c s = Done a s1 /\ k a s1 = Done b s'.
Proof.
  unfold bind. destruct (c s) as [a s1| |]; try discriminate. eauto.
Qed.

Lemma bind_step {A B} (c : M A) (k : A -> M B) s a s1 :
  c s = Done a s1 -> bind c k s = k a s1.
Proof. unfold bind. intros ->. reflexivity. Qed.

Lemma heap_set_heap h s : heap (set_heap h s) = h.
Proof. reflexivity. Qed.

Lemma set_heap_set_heap h h' s : set_heap h (set_heap h' s) = set_heap h s.
Proof. reflexivity. Qed.

Lemma deref_live s l n :
  heap s !! l = Some (Live n) -> deref (Some l) s = Done (l, n) s.
Proof. unfold deref. intros ->. reflexivity. Qed.

Lemma lookup_written (h : list cell) l c c' :
  h !! l = Some c -> <[l := c']> h !! l = Some c'.
Proof. intros H. apply list_lookup_insert_eq. eapply lookup_lt_Some, H. Qed.

Lemma fetch_sub_external_live s l n k :
  heap s !! l = Some (Live n) ->
  fetch_sub_external (Some l) k s
  = Done (external_ref_count n)
      (set_heap
         (<[l := Live (set_external (wrap (external_ref_count n - k)) n)]>
            (heap s)) s).
Proof.
  intros H. unfold fetch_sub_external.
  rewrite (bind_step _ _ _ _ _ (deref_live _ _ _ H)). reflexivity.
Qed.

Lemma fetch_sub_internal_live s l n k :
  heap s !! l = Some (Live n) ->
  fetch_sub_internal (Some l) k s
  = Done (internal_ref_count n)
      (set_heap
         (<[l := Live (set_internal (wrap (internal_ref_count n - k)) n)]>
            (heap s)) s).
Proof.
  intros H. unfold fetch_sub_internal.
  rewrite (bind_step _ _ _ _ _ (deref_live _ _ _ H)). reflexivity.
Qed.

Lemma delete_live s l n :
  heap s !! l = Some (Live n) ->
  delete (Some l) s = Done tt (set_heap (<[l := Freed]> (heap s)) s).
Proof. unfold delete. intros ->. reflexivity. Qed.

Lemma load_internal_live s l n :
  heap s !! l = Some (Live n) ->
  load_internal (Some l) s = Done (internal_ref_count n) s.
Proof.
  intros H. unfold load_internal.
  rewrite (bind_step _ _ _ _ _ (deref_live _ _ _ H)). reflexivity.
Qed.

Lemma load_external_live s l n :
  heap s !! l = Some (Live n) ->
  load_external (Some l) s = Done (external_ref_count n) s.
Proof.
  intros H. unfold load_external.
  rewrite (bind_step _ _ _ _ _ (deref_live _ _ _ H)). reflexivity.
Qed.

(** ** The two plain releases *)

(** Rewrites that bring the heap after a write back to one insertion. *)
Ltac one_insertion :=
  rewrite ?heap_set_heap, ?set_heap_set_heap, ?list_insert_insert_eq.

Lemma release_node_ref_spec (s : state) (l : loc) (n : Node) :
  heap s !! l = Some (Live n) ->
  counters_in_range n ->
  release_node_ref (Some l) s
  = Done tt (set_heap (<[l := releaseExternal_spec n]> (heap s)) s).
Proof.
  intros Hl [_ Hext]. unfold release_node_ref, releaseExternal_spec.
  rewrite (bind_step _ _ _ _ _ (fetch_sub_external_live _ _ _ 1 Hl)).
  cbn [external_ref_count internal_ref_count set_external].
  pose proof (wrap_pred_zero _ Hext) as He.
  destruct (decide (external_ref_count n = 1)) as [E1|E1].
  - erewrite bind_step; cycle 1.
    { apply load_internal_live. rewrite heap_set_heap.
      eapply lookup_written, Hl. }
    cbn [internal_ref_count set_external].
    destruct (decide (internal_ref_count n = 0)) as [I0|I0].
    + erewrite delete_live; cycle 1.
      { rewrite heap_set_heap. eapply lookup_written, Hl. }
      one_insertion. rewrite decide_True by tauto. reflexivity.
    + rewrite decide_False by tauto. reflexivity.
  - rewrite decide_False by tauto. reflexivity.
Qed.

Lemma release_internal_counter_spec (s : state) (l : loc) (n : Node) :
  heap s !! l = Some (Live n) ->
  counters_in_range n ->
  release_internal_counter (Some l) s
  = Done tt (set_heap (<[l := releaseInternal_spec n]> (heap s)) s).
Proof.
  intros Hl [Hint _]. unfold release_internal_counter, releaseInternal_spec.
  rewrite (bind_step _ _ _ _ _ (fetch_sub_internal_live _ _ _ 1 Hl)).
  cbn [external_ref_count internal_ref_count set_internal].
  pose proof (wrap_pred_zero _ Hint) as Hi.
  destruct (decide (internal_ref_count n = 1)) as [I1|I1].
  - erewrite bind_step; cycle 1.
    { apply load_external_live. rewrite heap_set_heap.
      eapply lookup_written, Hl. }
    cbn [external_ref_count set_internal].
    destruct (decide (external_ref_count n = 0)) as [E0|E0].
    + erewrite delete_live; cycle 1.
      { rewrite heap_set_heap. eapply lookup_written, Hl. }
      one_insertion. rewrite decide_True by tauto. reflexivity.
    + rewrite decide_False by tauto. reflexivity.
  - rewrite decide_False by tauto. reflexivity.
Qed.

(** ** The combined release *)

(** C8: on a live node, [free_external_counter] decrements the external
    count; if that brings it to zero it also decrements the internal count,
    and it frees the node if the internal count thereby reaches zero too.
    Nothing else in the heap, and neither entry point, changes. *)
Theorem free_external_counter_spec (s : state) (l : loc) (n : Node) :
  heap s !! l = Some (Live n) ->
  counters_in_range n ->
  free_external_counter (Some l) s
  = Done tt (set_heap (<[l := freeExternalAndInternal_spec n]> (heap s)) s).
Proof.
  intros Hl [Hint Hext].
  unfold free_external_counter, freeExternalAndInternal_spec.
  rewrite (bind_step _ _ _ _ _ (fetch_sub_external_live _ _ _ 1 Hl)).
  cbn [external_ref_count internal_ref_count set_external set_internal].
  pose proof (wrap_pred_zero _ Hext) as He.
  pose proof (wrap_pred_zero _ Hint) as Hi.
  destruct (decide (external_ref_count n = 1)) as [E1|E1];
    destruct (decide (wrap (external_ref_count n - 1) = 0)) as [E0|E0];
    try (exfalso; tauto); [|reflexivity].
  erewrite bind_step; cycle 1.
  { apply fetch_sub_internal_live. rewrite heap_set_heap.
    eapply lookup_written, Hl. }
  cbn [external_ref_count internal_ref_count set_external set_internal].
  rewrite heap_set_heap, set_heap_set_heap, list_insert_insert_eq.
  destruct (decide (internal_ref_count n = 1)) as [I1|I1];
    destruct (decide (wrap (internal_ref_count n - 1) = 0)) as [I0|I0];
    try (exfalso; tauto); [|reflexivity].
  erewrite delete_live; cycle 1.
  { rewrite heap_set_heap. eapply lookup_written, Hl. }
  rewrite heap_set_heap, set_heap_set_heap, list_insert_insert_eq.
  reflexivity.
Qed.

(** ** The output argument of pop *)

Lemma bind_i_Done {A B} (c : I A) (k : A -> I B) sched s b sched' s' :
  bind_i c k sched s = Done (b, sched') s' ->
  exists a sched1 s1,
    c sched s = Done (a, sched1) s1 /\
    k a sched1 s1 = Done (b, sched') s'.
Proof.
  unfold bind_i. intros H.
  apply bind_Done in H as ([a sched1] & s1 & Hc & Hk). eauto.
Qed.

(** With nobody else running, the interleaved operations are the ones
    above. *)
Lemma atomic_alone {A} (c : M A) s :
  atomic c [] s = (let* a := c in ret (a, [])) s.
Proof. reflexivity. Qed.

Lemma bind_i_alone {A B} (c : I A) (k : A -> I B)
    (c0 : M A) (k0 : A -> M B) :
  (forall s, c [] s = (let* a := c0 in ret (a, [])) s) ->
  (forall a s, k a [] s = (let* b := k0 a in ret (b, [])) s) ->
  forall s, bind_i c k [] s = (let* b := bind c0 k0 in ret (b, [])) s.
Proof.
  intros Hc Hk s. unfold bind_i, bind at 1. rewrite Hc.
  unfold bind. destruct (c0 s) as [a s1| |]; [|reflexivity..].
  unfold ret. rewrite Hk. reflexivity.
Qed.

Lemma ret_i_alone {A} (a : A) s :
  ret_i a [] s = (let* b := ret a in ret (b, [])) s.
Proof. reflexivity. Qed.

Lemma claim_node_interleaved_alone p_node s :
  claim_node_interleaved p_node [] s
  = (let* node := claim_node p_node in ret (node, [])) s.
Proof.
  unfold claim_node_interleaved, claim_node.
  apply bind_i_alone; [intros; apply atomic_alone|].
  intros [l|] s1.
  - apply bind_i_alone; [intros; apply atomic_alone|].
    intros; apply ret_i_alone.
  - apply ret_i_alone.
Qed.

Lemma free_external_counter_interleaved_alone node s :
  free_external_counter_interleaved node [] s
  = (let* u := free_external_counter node in ret (u, [])) s.
Proof.
  unfold free_external_counter_interleaved, free_external_counter.
  destruct node as [l|]; [|apply ret_i_alone].
  apply bind_i_alone; [intros; apply atomic_alone|].
  intros prev s1. case_decide; [|apply ret_i_alone].
  apply bind_i_alone; [intros; apply atomic_alone|].
  intros prev_int s2. case_decide; [apply atomic_alone|apply ret_i_alone].
Qed.

Ltac alone_step IH :=
  first
    [ apply bind_i_alone;
      [ intros;
        first [ apply claim_node_interleaved_alone
              | apply free_external_counter_interleaved_alone
              | apply atomic_alone ]
      | intros ]
    | apply ret_i_alone
    | apply IH
    | case_decide
    | match goal with
      | |- context [match ?x with Some _ => _ | None => _ end] =>
          destruct x
      | |- context [let (_, _) := ?x in _] => destruct x
      | |- context [if ?b then _ else _] => destruct b
      end ].

Lemma pop_interleaved_alone (fuel : nat) (value : option T) :
  forall s,
  pop_interleaved fuel value [] s
  = (let* r := pop fuel value in ret (r, [])) s.
Proof.
  induction fuel as [|fuel IH]; intros s; [reflexivity|].
  cbn [pop_interleaved pop]. revert s. repeat alone_step IH.
Qed.

(** One step of a run of [pop_interleaved] that ended in [Done]: split the
    leading bind, or decide the branch taken. *)
Ltac pop_step H :=
  match type of H with
  | bind_i _ _ _ _ = Done _ _ =>
      let a := fresh "a" in
      let sched1 := fresh "sched" in
      let s1 := fresh "s" in
      apply bind_i_Done in H as (a & sched1 & s1 & _ & H)
  | (if decide ?P then _ else _) _ _ = Done _ _ => destruct (decide P)
  | (match ?x with Some _ => _ | None => _ end) _ _ = Done _ _ =>
      destruct x
  | (let (_, _) := ?x in _) _ _ = Done _ _ => destruct x
  | (let ' pair _ _ := ?x in _) _ _ = Done _ _ => destruct x
  | (if ?b then _ else _) _ _ = Done _ _ => destruct b
  end.

(** C9: a call of [pop] that returns [false] leaves the caller's output
    object as it found it, whatever the other threads do between its
    atomic operations and whichever of its paths it takes, the ones on
    which it lost the race for [head_] included. *)
Theorem pop_false_output_unchanged
    (fuel : nat) (value : option T) (sched sched' : schedule)
    (s s' : state) (value' : option T) :
  pop_interleaved fuel value sched s = Done ((false, value'), sched') s' ->
  value' = value.
Proof.
  revert sched s. induction fuel as [|fuel IH]; intros sched s H.
  - discriminate.
  - cbn [pop_interleaved] in H.
    repeat pop_step H;
      solve [ eapply IH, H
            | unfold ret_i, ret in H; congruence ].
Qed.

(** ** What one push leaves behind *)

(** C5: [push] allocates its node with the default constructor: both counts
    are zero, but the payload slot is left unassigned, not set to [value];
    the rest of [push] runs on that node alone, so two calls that differ
    only in [value] do the same. *)
Theorem push_node_does_not_hold_value (fuel : nat) (value : T) (s : state) :
  push fuel value s
  = push_loop fuel (Some (length (heap s)))
      (set_heap
         (heap s ++ [Live {| data := None; next := None;
                             internal_ref_count := 0;
                             external_ref_count := 0 |}]) s)
  /\ forall other : T, push fuel value s = push fuel other s.
Proof. split; reflexivity. Qed.

(** C3: on a fresh queue, [push] returns with the new node linked after the
    sentinel and referenced by [tail_], and already deleted: its internal
    count went 0, 1, 0 and [release_internal_counter] freed it. *)
Theorem push_frees_the_node_it_linked (fuel : nat) (value : T) :
  (let* _ := LockFreeQueue in push (S fuel) value) no_queue
  = Done tt
      {| heap :=
           [ Live {| data := None; next := Some 1%nat;
                     internal_ref_count := 1; external_ref_count := 0 |};
             Freed ];
         head_ := Some 0%nat;
         tail_ := Some 1%nat |}.
Proof. reflexivity. Qed.

(** C4: the second of two pushes on a fresh queue reads [last->next] of the
    node the first push freed. *)
Theorem second_push_reads_freed_node (fuel : nat) (v1 v2 : T) :
  (let* _ := LockFreeQueue in
   let* _ := push (S fuel) v1 in
   push (S fuel) v2) no_queue
  = Fault (UseAfterFree 1%nat).
Proof. reflexivity. Qed.

(** C1: scenario A does not get as far as its first pop, and a pop right
    after a single push increments the external count of the freed node. *)
Theorem scenario_A_faults (fuel : nat) (v1 v2 v3 : T) :
  scenario_A (S fuel) v1 v2 v3 no_queue = Fault (UseAfterFree 1%nat)
  /\ (let* _ := LockFreeQueue in
      let* _ := push (S fuel) v1 in
      pop (S fuel) None) no_queue
     = Fault (UseAfterFree 1%nat).
Proof. split; reflexivity. Qed.

(** ** The holds pop takes and gives back *)

(** C2: on a fresh queue, the head node carries two external holds once
    [pop] has claimed it (lines 180 and 181), and every [pop] that finds the
    queue empty returns with one more hold on it than before. *)
Theorem pop_takes_two_holds_on_head (fuel : nat) (value : option T) :
  (let* _ := LockFreeQueue in
   let* first := claim_node Head in
   fetch_add_external first 1) no_queue
  = Done 1
      {| heap :=
           [ Live {| data := None; next := None;
                     internal_ref_count := 1; external_ref_count := 2 |} ];
         head_ := Some 0%nat;
         tail_ := Some 0%nat |}
  /\ (let* _ := LockFreeQueue in
      let* _ := pop (S fuel) value in
      pop (S fuel) value) no_queue
     = Done (false, value)
         {| heap :=
              [ Live {| data := None; next := None;
                        internal_ref_count := 1; external_ref_count := 2 |} ];
            head_ := Some 0%nat;
            tail_ := Some 0%nat |}.
Proof. split; reflexivity. Qed.

(** C7: [pop] on a fresh queue returns [false] in its first iteration and
    leaves the output alone, but the sentinel keeps one external hold. *)
Theorem pop_empty_keeps_a_hold (fuel : nat) (value : option T) :
  (let* _ := LockFreeQueue in pop (S fuel) value) no_queue
  = Done (false, value)
      {| heap :=
           [ Live {| data := None; next := None;
                     internal_ref_count := 1; external_ref_count := 1 |} ];
         head_ := Some 0%nat;
         tail_ := Some 0%nat |}.
Proof. reflexivity. Qed.

(** [one_linked_node None] is the state a pusher has reached on a fresh
    queue when it is about to call [release_internal_counter]. *)
Lemma push_until_tail_swung_state :
  (let* _ := LockFreeQueue in push_until_tail_swung) no_queue
  = Done tt (one_linked_node None).
Proof. reflexivity. Qed.

(** C6: with one node linked behind the sentinel, [pop] advances [head_],
    copies the payload and returns [true]; the old sentinel keeps its
    internal reference and one external hold, and the node [head_] now
    references has been deleted by the release of [last]. *)
Theorem pop_success_releases (fuel : nat) (payload value : option T) :
  pop (S fuel) value (one_linked_node payload)
  = Done (true, payload)
      {| heap :=
           [ Live {| data := None; next := Some 1%nat;
                     internal_ref_count := 1; external_ref_count := 1 |};
             Freed ];
         head_ := Some 1%nat;
         tail_ := Some 1%nat |}.
Proof. reflexivity. Qed.

(** ** Teardown of a fresh queue *)

(** The destructor deletes the last head node directly, whatever its
    counts: here the sentinel goes with one internal reference and the
    external hold the draining [pop] left on it. *)
Lemma destroy_fresh_queue (fuel : nat) :
  (let* _ := LockFreeQueue in destroy (S fuel)) no_queue
  = Done tt {| heap := [Freed]; head_ := Some 0%nat; tail_ := Some 0%nat |}.
Proof. reflexivity. Qed.

(** * Further properties of the operations *)

(** ** Running the primitives on live nodes *)

Lemma wrap_small (z : Z) : 0 <= z < UINT_MODULUS -> wrap z = z.
Proof. intros H. unfold wrap. apply Z.mod_small, H. Qed.

Lemma fetch_add_external_live s l n k :
  heap s !! l = Some (Live n) ->
  fetch_add_external (Some l) k s
  = Done (external_ref_count n)
      (set_heap
         (<[l := Live (set_external (wrap (external_ref_count n + k)) n)]>
            (heap s)) s).
Proof.
  intros H. unfold fetch_add_external.
  rewrite (bind_step _ _ _ _ _ (deref_live _ _ _ H)). reflexivity.
Qed.

Lemma fetch_add_internal_live s l n k :
  heap s !! l = Some (Live n) ->
  fetch_add_internal (Some l) k s
  = Done (internal_ref_count n)
      (set_heap
         (<[l := Live (set_internal (wrap (internal_ref_count n + k)) n)]>
            (heap s)) s).
Proof.
  intros H. unfold fetch_add_internal.
  rewrite (bind_step _ _ _ _ _ (deref_live _ _ _ H)). reflexivity.
Qed.

Lemma load_next_live s l n :
  heap s !! l = Some (Live n) -> load_next (Some l) s = Done (next n) s.
Proof.
  intros H. unfold load_next.
  rewrite (bind_step _ _ _ _ _ (deref_live _ _ _ H)). reflexivity.
Qed.

Lemma load_data_live s l n :
  heap s !! l = Some (Live n) -> load_data (Some l) s = Done (data n) s.
Proof.
  intros H. unfold load_data.
  rewrite (bind_step _ _ _ _ _ (deref_live _ _ _ H)). reflexivity.
Qed.

Lemma store_internal_live s l n z :
  heap s !! l = Some (Live n) ->
  store_internal (Some l) z s
  = Done tt (set_heap (<[l := Live (set_internal z n)]> (heap s)) s).
Proof.
  intros H. unfold store_internal.
  rewrite (bind_step _ _ _ _ _ (deref_live _ _ _ H)). reflexivity.
Qed.

Lemma cas_next_live s l n expected desired :
  heap s !! l = Some (Live n) ->
  next n = expected ->
  cas_next (Some l) expected desired s
  = Done (true, expected)
      (set_heap (<[l := Live (set_next desired n)]> (heap s)) s).
Proof.
  intros H <-. unfold cas_next.
  rewrite (bind_step _ _ _ _ _ (deref_live _ _ _ H)).
  rewrite decide_True by reflexivity. reflexivity.
Qed.

Lemma load_slot_run s sl : load_slot sl s = Done (get_slot sl s) s.
Proof. reflexivity. Qed.

Lemma cas_slot_hit s sl expected desired :
  get_slot sl s = expected ->
  cas_slot sl expected desired s
  = Done (true, expected) (set_slot sl desired s).
Proof.
  intros <-. unfold cas_slot, bind, load_slot.
  rewrite decide_True by reflexivity. reflexivity.
Qed.

Lemma claim_node_live s sl l n :
  get_slot sl s = Some l ->
  heap s !! l = Some (Live n) ->
  claim_node sl s
  = Done (Some l)
      (set_heap
         (<[l := Live (set_external (wrap (external_ref_count n + 1)) n)]>
            (heap s)) s).
Proof.
  intros Hsl H. unfold claim_node, bind at 1, load_slot. rewrite Hsl.
  rewrite (bind_step _ _ _ _ _ (fetch_add_external_live _ _ _ 1 H)).
  reflexivity.
Qed.

Lemma release_node_ref_live s l n :
  heap s !! l = Some (Live n) ->
  release_node_ref (Some l) s
  = Done tt (set_heap (<[l := after_release_node_ref n]> (heap s)) s).
Proof.
  intros Hl. unfold release_node_ref, after_release_node_ref.
  rewrite (bind_step _ _ _ _ _ (fetch_sub_external_live _ _ _ 1 Hl)).
  destruct (decide (external_ref_count n = 1)) as [E1|E1].
  - erewrite bind_step; cycle 1.
    { apply load_internal_live. rewrite heap_set_heap.
      eapply lookup_written, Hl. }
    cbn [internal_ref_count set_external].
    destruct (decide (internal_ref_count n = 0)) as [I0|I0].
    + erewrite delete_live; cycle 1.
      { rewrite heap_set_heap. eapply lookup_written, Hl. }
      one_insertion. rewrite decide_True by tauto. reflexivity.
    + rewrite decide_False by tauto. reflexivity.
  - rewrite decide_False by tauto. reflexivity.
Qed.

Lemma release_internal_counter_live s l n :
  heap s !! l = Some (Live n) ->
  release_internal_counter (Some l) s
  = Done tt
      (set_heap (<[l := after_release_internal_counter n]> (heap s)) s).
Proof.
  intros Hl. unfold release_internal_counter, after_release_internal_counter.
  rewrite (bind_step _ _ _ _ _ (fetch_sub_internal_live _ _ _ 1 Hl)).
  destruct (decide (internal_ref_count n = 1)) as [I1|I1].
  - erewrite bind_step; cycle 1.
    { apply load_external_live. rewrite heap_set_heap.
      eapply lookup_written, Hl. }
    cbn [external_ref_count set_internal].
    destruct (decide (external_ref_count n = 0)) as [E0|E0].
    + erewrite delete_live; cycle 1.
      { rewrite heap_set_heap. eapply lookup_written, Hl. }
      one_insertion. rewrite decide_True by tauto. reflexivity.
    + rewrite decide_False by tauto. reflexivity.
  - rewrite decide_False by tauto. reflexivity.
Qed.

Lemma free_external_counter_live s l n :
  heap s !! l = Some (Live n) ->
  free_external_counter (Some l) s
  = Done tt (set_heap (<[l := after_free_external_counter n]> (heap s)) s).
Proof.
  intros Hl. unfold free_external_counter, after_free_external_counter.
  rewrite (bind_step _ _ _ _ _ (fetch_sub_external_live _ _ _ 1 Hl)).
  destruct (decide (external_ref_count n = 1)) as [E1|E1]; [|reflexivity].
  erewrite bind_step; cycle 1.
  { apply fetch_sub_internal_live. rewrite heap_set_heap.
    eapply lookup_written, Hl. }
  cbn [internal_ref_count set_external]. one_insertion.
  destruct (decide (internal_ref_count n = 1)) as [I1|I1]; [|reflexivity].
  erewrite delete_live; cycle 1.
  { rewrite heap_set_heap. eapply lookup_written, Hl. }
  one_insertion. reflexivity.
Qed.

(** ** Running an operation step by step *)

Ltac norm :=
  unfold set_external, set_internal, set_next, set_heap, set_slot, get_slot;
  cbn beta iota delta
    [heap head_ tail_ external_ref_count internal_ref_count next data].

(** Find the cell at an address under the insertions made so far. *)
Ltac lookup :=
  norm;
  repeat first
    [ reflexivity
    | eassumption
    | rewrite list_lookup_insert_ne by congruence
    | eapply lookup_written ].

(** Run the leading primitive of the goal with its lemma [L]. *)
Ltac run L :=
  erewrite bind_step; [ | solve [ eapply L; lookup ] ]; norm.

(** Counters that stay in range do not wrap. *)
Ltac unwrap :=
  repeat match goal with
         | |- context [wrap ?z] =>
             rewrite (wrap_small z) by (unfold UINT_MODULUS in *; lia)
         end.

(** After a write: one insertion per address, counters unwrapped. *)
Ltac settle := one_insertion; norm; unwrap.

(** The combined release of a hold that is not the last one. *)
Ltac keep_hold :=
  unfold after_free_external_counter; norm;
  rewrite (decide_False (P := _ = 1)) by lia;
  one_insertion; norm; unwrap.

(** ** pop on an empty queue *)

Lemma pop_empty_run (fuel : nat) (value : option T) (s : state)
    (l : loc) (n : Node) :
  head_ s = Some l ->
  tail_ s = Some l ->
  heap s !! l = Some (Live n) ->
  next n = None ->
  0 <= external_ref_count n ->
  external_ref_count n + 3 < UINT_MODULUS ->
  pop (S fuel) value s
  = Done (false, value)
      (set_heap
         (<[l := Live (set_external (external_ref_count n + 1) n)]>
            (heap s)) s).
Proof.
  destruct s as [h hd tl], n as [d nx i e]. norm.
  intros -> -> Hl -> He0 He3. cbn [pop].
  run claim_node_live. settle.
  run fetch_add_external_live. settle.
  run load_next_live.
  run claim_node_live. settle.
  rewrite decide_True by reflexivity.
  run free_external_counter_live. keep_hold.
  run free_external_counter_live. keep_hold.
  unfold ret. norm. repeat f_equal. lia.
Qed.

(** ** Cells at the end of the heap *)

Lemma lookup_new (h : list cell) (c : cell) :
  (h ++ [c]) !! length h = Some c.
Proof. apply list_lookup_middle. reflexivity. Qed.

Lemma lookup_old (h : list cell) (c c' : cell) (l : loc) :
  h !! l = Some c -> (h ++ [c']) !! l = Some c.
Proof.
  intros H. rewrite lookup_app_l by (eapply lookup_lt_Some, H). exact H.
Qed.

Lemma insert_new (h : list cell) (c c' : cell) :
  <[length h := c']> (h ++ [c]) = h ++ [c'].
Proof.
  rewrite insert_app_r_alt by reflexivity.
  rewrite Nat.sub_diag. reflexivity.
Qed.

Lemma insert_old_new (h : list cell) (c c' x y : cell) (l : loc) :
  h !! l = Some y ->
  <[length h := c']> (<[l := x]> (h ++ [c])) = <[l := x]> h ++ [c'].
Proof.
  intros H. rewrite insert_app_l by (eapply lookup_lt_Some, H).
  rewrite <- (length_insert h l x). apply insert_new.
Qed.

Lemma old_is_not_new (h : list cell) (c : cell) (l : loc) :
  h !! l = Some c -> l <> length h.
Proof. intros H%lookup_lt_Some. lia. Qed.

(** ** Construction *)

Lemma LockFreeQueue_run (s : state) :
  LockFreeQueue s
  = Done tt
      {| heap :=
           heap s ++ [Live {| data := None; next := None;
                              internal_ref_count := 1;
                              external_ref_count := 0 |}];
         head_ := Some (length (heap s));
         tail_ := Some (length (heap s)) |}.
Proof.
  destruct s as [h hd tl]. unfold LockFreeQueue, new. norm.
  unfold bind at 1. norm.
  erewrite bind_step; cycle 1.
  { eapply store_internal_live. norm. apply lookup_new. }
  norm. rewrite insert_new. reflexivity.
Qed.

(** ** Repeated pops on an empty queue *)

Lemma set_external_same (n : Node) :
  set_external (external_ref_count n) n = n.
Proof. destruct n. reflexivity. Qed.

Lemma pops_empty_run (fuel count : nat) (value : option T) :
  forall (s : state) (l : loc) (n : Node),
  head_ s = Some l ->
  tail_ s = Some l ->
  heap s !! l = Some (Live n) ->
  next n = None ->
  0 <= external_ref_count n ->
  external_ref_count n + Z.of_nat count + 2 < UINT_MODULUS ->
  pops (S fuel) count value s
  = Done (replicate count false)
      (set_heap
         (<[l := Live (set_external
                         (external_ref_count n + Z.of_nat count) n)]>
            (heap s)) s).
Proof.
  induction count as [|count IH]; intros s l n Hh Ht Hl Hn He0 He.
  - cbn [pops replicate]. unfold ret.
    rewrite Nat2Z.inj_0, Z.add_0_r, set_external_same.
    rewrite list_insert_id by exact Hl. destruct s. reflexivity.
  - cbn [pops replicate].
    erewrite bind_step; cycle 1.
    { apply (pop_empty_run fuel value s l n); auto. lia. }
    cbn beta iota. erewrite bind_step; cycle 1.
    { apply (IH _ l (set_external (external_ref_count n + 1) n)).
      - exact Hh.
      - exact Ht.
      - rewrite heap_set_heap. eapply lookup_written, Hl.
      - exact Hn.
      - norm. lia.
      - norm. lia. }
    unfold ret. one_insertion. norm.
    replace (external_ref_count n + 1 + Z.of_nat count)
      with (external_ref_count n + Z.of_nat (S count)) by lia.
    reflexivity.
Qed.

(** ** Teardown of an empty queue *)

Lemma destroy_empty_run (fuel : nat) (s : state) (l : loc) (n : Node) :
  head_ s = Some l ->
  tail_ s = Some l ->
  heap s !! l = Some (Live n) ->
  next n = None ->
  0 <= external_ref_count n ->
  external_ref_count n + 3 < UINT_MODULUS ->
  destroy (S fuel) s = Done tt (set_heap (<[l := Freed]> (heap s)) s).
Proof.
  intros Hh Ht Hl Hn He0 He3. unfold destroy. cbn [drain].
  erewrite bind_step; cycle 1.
  { erewrite bind_step; cycle 1.
    { apply (pop_empty_run fuel None s l n); auto. }
    reflexivity. }
  cbn beta iota. unfold bind at 1, load_slot.
  destruct s as [h hd tl]. norm. cbn [head_] in Hh. rewrite Hh.
  erewrite delete_live; cycle 1.
  { norm. eapply lookup_written, Hl. }
  norm. one_insertion. reflexivity.
Qed.

(** ** The iterations of push *)

(** An iteration that finds [tail_] at the true last node links the new
    node [k] behind it, swings [tail_], and frees [k] on its way out: [k]
    came with both counts at zero, so the internal reference line 157 gives
    it is the one line 159 takes away. *)
Lemma push_loop_link_run (fuel : nat) (s : state) (l k : loc)
    (n nk : Node) :
  tail_ s = Some l ->
  heap s !! l = Some (Live n) ->
  next n = None ->
  heap s !! k = Some (Live nk) ->
  internal_ref_count nk = 0 ->
  external_ref_count nk = 0 ->
  push_loop (S fuel) (Some k) s
  = Done tt
      {| heap := <[k := Freed]>
                   (<[l := Live (set_next (Some k) n)]> (heap s));
         head_ := head_ s;
         tail_ := Some k |}.
Proof.
  destruct s as [h hd tl], n as [d nx i e], nk as [dk nxk ik ek]. norm.
  intros -> Hl -> Hk -> ->. cbn [push_loop].
  run load_slot_run. run load_next_live. run load_slot_run.
  rewrite decide_True by reflexivity.
  run cas_next_live.
  destruct (decide (l = k)) as [->|Hne].
  - rewrite Hl in Hk. injection Hk as ? ? ? ?. subst.
    run fetch_add_internal_live. run cas_slot_hit.
    run release_internal_counter_live.
    unfold after_release_internal_counter. norm.
    rewrite (decide_True (P := _ /\ _)) by (split; reflexivity).
    one_insertion. reflexivity.
  - run fetch_add_internal_live. run cas_slot_hit.
    run release_internal_counter_live.
    unfold after_release_internal_counter. norm.
    rewrite (decide_True (P := _ /\ _)) by (split; reflexivity).
    one_insertion. reflexivity.
Qed.

(** An iteration that finds [tail_] lagging swings it to the successor and
    goes round again. *)
Lemma push_loop_help_run (fuel : nat) (node : ptr) (s : state)
    (l m : loc) (n : Node) :
  tail_ s = Some l ->
  heap s !! l = Some (Live n) ->
  next n = Some m ->
  push_loop (S fuel) node s
  = push_loop fuel node (set_slot Tail (Some m) s).
Proof.
  destruct s as [h hd tl], n as [d nx i e]. norm.
  intros -> Hl ->. cbn [push_loop].
  run load_slot_run. run load_next_live. run load_slot_run.
  rewrite decide_True by reflexivity.
  run cas_slot_hit. reflexivity.
Qed.

(** ** push, start to end *)

Lemma push_run (fuel : nat) (value : T) (s : state) (l : loc) (n : Node) :
  tail_ s = Some l ->
  heap s !! l = Some (Live n) ->
  next n = None ->
  push (S fuel) value s
  = Done tt
      {| heap := <[l := Live (set_next (Some (length (heap s))) n)]> (heap s)
                 ++ [Freed];
         head_ := head_ s;
         tail_ := Some (length (heap s)) |}.
Proof.
  intros Ht Hl Hn. unfold push, new. unfold bind at 1.
  erewrite push_loop_link_run; cycle 1.
  - exact Ht.
  - rewrite heap_set_heap. eapply lookup_old, Hl.
  - exact Hn.
  - rewrite heap_set_heap. apply lookup_new.
  - reflexivity.
  - reflexivity.
  - destruct s as [h hd tl]. norm.
    erewrite insert_old_new by exact Hl. reflexivity.
Qed.

Lemma push_lagging_run (fuel : nat) (value : T) (s : state)
    (l m : loc) (n nm : Node) :
  tail_ s = Some l ->
  heap s !! l = Some (Live n) ->
  next n = Some m ->
  heap s !! m = Some (Live nm) ->
  next nm = None ->
  push (S (S fuel)) value s
  = Done tt
      {| heap := <[m := Live (set_next (Some (length (heap s))) nm)]> (heap s)
                 ++ [Freed];
         head_ := head_ s;
         tail_ := Some (length (heap s)) |}.
Proof.
  intros Ht Hl Hn Hm Hnm. unfold push, new. unfold bind at 1.
  erewrite push_loop_help_run; cycle 1.
  - exact Ht.
  - rewrite heap_set_heap. eapply lookup_old, Hl.
  - exact Hn.
  - erewrite push_loop_link_run; cycle 1.
    + reflexivity.
    + destruct s as [h hd tl]. norm. eapply lookup_old, Hm.
    + exact Hnm.
    + destruct s as [h hd tl]. norm. apply lookup_new.
    + reflexivity.
    + reflexivity.
    + destruct s as [h hd tl]. norm.
      erewrite insert_old_new by exact Hm. reflexivity.
Qed.

(** ** The iterations of pop *)

(** An iteration that finds [head_] and [tail_] on the same node, with a
    successor already linked, swings [tail_] and goes round again; the node
    keeps one more external hold. *)
Lemma pop_help_run (fuel : nat) (value : option T) (s : state)
    (l m : loc) (n : Node) :
  head_ s = Some l ->
  tail_ s = Some l ->
  heap s !! l = Some (Live n) ->
  next n = Some m ->
  0 <= external_ref_count n ->
  external_ref_count n + 3 < UINT_MODULUS ->
  pop (S fuel) value s
  = pop fuel value
      {| heap := <[l := Live (set_external (external_ref_count n + 1) n)]>
                   (heap s);
         head_ := Some l;
         tail_ := Some m |}.
Proof.
  destruct s as [h hd tl], n as [d nx i e]. norm.
  intros -> -> Hl -> He0 He3. cbn [pop].
  run claim_node_live. settle.
  run fetch_add_external_live. settle.
  run load_next_live.
  run claim_node_live. settle.
  rewrite decide_True by reflexivity.
  run free_external_counter_live. keep_hold.
  run cas_slot_hit.
  run free_external_counter_live. keep_hold.
  repeat f_equal. lia.
Qed.

(** An iteration that finds [head_] and [tail_] on different nodes and a
    successor [x] behind the head: [head_] moves to [x], the payload of [x]
    is returned, the hold on [last] goes through the combined release, and
    the old head keeps one of its two holds. *)
Lemma pop_advance_run (fuel : nat) (value : option T) (s : state)
    (l m x : loc) (nl nm nx : Node) :
  head_ s = Some l ->
  tail_ s = Some m ->
  l <> m ->
  heap s !! l = Some (Live nl) ->
  heap s !! m = Some (Live nm) ->
  heap s !! x = Some (Live nx) ->
  next nl = Some x ->
  0 <= external_ref_count nl ->
  external_ref_count nl + 2 < UINT_MODULUS ->
  0 <= external_ref_count nm ->
  external_ref_count nm + 1 < UINT_MODULUS ->
  pop (S fuel) value s
  = Done (true, data nx)
      {| heap :=
           <[l := Live (set_external (external_ref_count nl + 1) nl)]>
             (<[m := after_free_external_counter
                       (set_external (external_ref_count nm + 1) nm)]>
                (heap s));
         head_ := Some x;
         tail_ := Some m |}.
Proof.
  destruct s as [h hd tl], nl as [dl nxl il el], nm as [dm nxm im em]. norm.
  intros -> -> Hne Hl Hm Hx -> Hel0 Hel Hem0 Hem. cbn [pop].
  run claim_node_live. settle.
  run fetch_add_external_live. settle.
  run load_next_live.
  run claim_node_live. settle.
  rewrite decide_False by congruence.
  run cas_slot_hit.
  assert (exists nx',
            <[m := Live {| data := dm; next := nxm; internal_ref_count := im;
                           external_ref_count := em + 1 |}]>
              (<[l := Live {| data := dl; next := Some x;
                              internal_ref_count := il;
                              external_ref_count := el + 1 + 1 |}]> h) !! x
            = Some (Live nx') /\ data nx' = data nx) as (nx' & Hx' & Hd).
  { destruct (decide (x = m)) as [->|Hxm].
    - eexists. split; [eapply lookup_written; lookup|].
      rewrite Hm in Hx. injection Hx as <-. reflexivity.
    - rewrite list_lookup_insert_ne by congruence.
      destruct (decide (x = l)) as [->|Hxl].
      + eexists. split; [eapply lookup_written; lookup|].
        rewrite Hl in Hx. injection Hx as <-. reflexivity.
      + rewrite list_lookup_insert_ne by congruence. eauto. }
  erewrite bind_step; [ | eapply load_data_live; norm; exact Hx' ]. norm.
  rewrite Hd.
  run free_external_counter_live. settle.
  set (cm := after_free_external_counter _).
  run free_external_counter_live. keep_hold.
  unfold ret.
  rewrite (list_insert_insert_ne _ l m) by exact Hne. one_insertion.
  rewrite (list_insert_insert_ne _ m l) by congruence.
  repeat f_equal. lia.
Qed.

(** ** What an operation that returns has kept *)

Lemma keeps_ret {A} (R : state -> state -> Prop) (a : A) :
  (forall s, R s s) -> keeps R (ret a).
Proof. intros HR s a' s' [= _ <-]. apply HR. Qed.

Lemma keeps_bind {A B} (R : state -> state -> Prop)
    (c : M A) (k : A -> M B) :
  (forall s1 s2 s3, R s1 s2 -> R s2 s3 -> R s1 s3) ->
  keeps R c -> (forall a, keeps R (k a)) -> keeps R (bind c k).
Proof.
  intros HR Hc Hk s b s' H.
  apply bind_Done in H as (a & s1 & H1 & H2).
  eapply HR; [eapply Hc, H1 | eapply Hk, H2].
Qed.

Lemma keeps_out_of_fuel {A} (R : state -> state -> Prop) :
  keeps R (@out_of_fuel A).
Proof. intros s a s' H. discriminate. Qed.

(** *** [counts_only] *)

Lemma counts_only_refl s : counts_only s s.
Proof. split; [reflexivity|]. intros l n' H. eauto. Qed.

Lemma counts_only_trans s1 s2 s3 :
  counts_only s1 s2 -> counts_only s2 s3 -> counts_only s1 s3.
Proof.
  intros [L12 H12] [L23 H23]. split; [congruence|].
  intros l n3 H3. destruct (H23 _ _ H3) as (n2 & H2 & D2 & N2).
  destruct (H12 _ _ H2) as (n1 & H1 & D1 & N1).
  exists n1. repeat split; congruence.
Qed.

Lemma counts_only_slot sl p s : counts_only s (set_slot sl p s).
Proof. destruct sl; (split; [reflexivity|]); intros l n' H; eauto. Qed.

(** Replacing a live node by a freed cell, or by a node with the same
    payload and successor. *)
Lemma counts_only_cell s l n c :
  heap s !! l = Some (Live n) ->
  (forall n', c = Live n' -> data n' = data n /\ next n' = next n) ->
  counts_only s (set_heap (<[l := c]> (heap s)) s).
Proof.
  intros Hl Hc. split.
  - rewrite heap_set_heap. apply length_insert.
  - intros l' n'. rewrite heap_set_heap.
    destruct (decide (l = l')) as [<-|Hne].
    + rewrite (lookup_written _ _ _ _ Hl). intros [= ->].
      exists n. split; [exact Hl|]. apply Hc. reflexivity.
    + rewrite list_lookup_insert_ne by exact Hne. eauto.
Qed.

Lemma after_free_external_counter_counts n n' :
  after_free_external_counter n = Live n' ->
  data n' = data n /\ next n' = next n.
Proof.
  unfold after_free_external_counter.
  repeat case_decide; intros [= <-]; split; reflexivity.
Qed.

(** *** Operations that return found their node live *)

Lemma deref_Done p s l n s' :
  deref p s = Done (l, n) s' ->
  p = Some l /\ heap s !! l = Some (Live n) /\ s' = s.
Proof.
  unfold deref. destruct p as [l0|]; [|discriminate].
  destruct (heap s !! l0) as [[n0|]|] eqn:E; try discriminate.
  intros [= <- <- <-]. auto.
Qed.

(** From a returned atomic operation on [p], the live node behind [p]. *)
Ltac found_live H :=
  let x := fresh "x" in
  let s1 := fresh "s" in
  let Hd := fresh "Hd" in
  apply bind_Done in H as ([? ?] & s1 & Hd & _);
  apply deref_Done in Hd as (-> & Hd & _); eauto.

Lemma fetch_add_external_found p k s a s' :
  fetch_add_external p k s = Done a s' ->
  exists l n, p = Some l /\ heap s !! l = Some (Live n).
Proof. unfold fetch_add_external. intros H. found_live H. Qed.

Lemma fetch_add_internal_found p k s a s' :
  fetch_add_internal p k s = Done a s' ->
  exists l n, p = Some l /\ heap s !! l = Some (Live n).
Proof. unfold fetch_add_internal. intros H. found_live H. Qed.

Lemma fetch_sub_external_found p k s a s' :
  fetch_sub_external p k s = Done a s' ->
  exists l n, p = Some l /\ heap s !! l = Some (Live n).
Proof. unfold fetch_sub_external. intros H. found_live H. Qed.

Lemma fetch_sub_internal_found p k s a s' :
  fetch_sub_internal p k s = Done a s' ->
  exists l n, p = Some l /\ heap s !! l = Some (Live n).
Proof. unfold fetch_sub_internal. intros H. found_live H. Qed.

Lemma load_next_found p s a s' :
  load_next p s = Done a s' ->
  exists l n, p = Some l /\ heap s !! l = Some (Live n).
Proof. unfold load_next. intros H. found_live H. Qed.

Lemma load_data_found p s a s' :
  load_data p s = Done a s' ->
  exists l n, p = Some l /\ heap s !! l = Some (Live n).
Proof. unfold load_data. intros H. found_live H. Qed.

Lemma cas_next_found p e d s a s' :
  cas_next p e d s = Done a s' ->
  exists l n, p = Some l /\ heap s !! l = Some (Live n).
Proof. unfold cas_next. intros H. found_live H. Qed.

Lemma free_external_counter_found l s a s' :
  free_external_counter (Some l) s = Done a s' ->
  exists n, heap s !! l = Some (Live n).
Proof.
  unfold free_external_counter. intros H.
  apply bind_Done in H as (x & s1 & H & _).
  apply fetch_sub_external_found in H as (l' & n & [= <-] & H). eauto.
Qed.

Lemma release_internal_counter_found l s a s' :
  release_internal_counter (Some l) s = Done a s' ->
  exists n, heap s !! l = Some (Live n).
Proof.
  unfold release_internal_counter. intros H.
  apply bind_Done in H as (x & s1 & H & _).
  apply fetch_sub_internal_found in H as (l' & n & [= <-] & H). eauto.
Qed.

Lemma release_node_ref_found l s a s' :
  release_node_ref (Some l) s = Done a s' ->
  exists n, heap s !! l = Some (Live n).
Proof.
  unfold release_node_ref. intros H.
  apply bind_Done in H as (x & s1 & H & _).
  apply fetch_sub_external_found in H as (l' & n & [= <-] & H). eauto.
Qed.

(** [claim_node] returns what the slot holds, and has found it live unless
    it is null. *)
Lemma claim_node_Done sl s p s' :
  claim_node sl s = Done p s' ->
  p = get_slot sl s /\
  (p = None /\ s' = s \/
   exists l n, p = Some l /\ heap s !! l = Some (Live n)).
Proof.
  unfold claim_node, bind at 1, load_slot.
  destruct (get_slot sl s) as [l|] eqn:E.
  - intros H. apply bind_Done in H as (x & s1 & H & [= <- _]).
    apply fetch_add_external_found in H as (l' & n & [= <-] & H).
    split; [reflexivity|]. right. eauto.
  - intros [= <- <-]. auto.
Qed.

(** *** What the operations of pop keep *)

(** Bring a returned operation to the state its [_live] lemma gives. *)
Ltac effect H :=
  lazymatch type of H with
  | fetch_add_external _ _ _ = Done _ _ =>
      let Hl := fresh "Hl" in
      destruct (fetch_add_external_found _ _ _ _ _ H) as (? & ? & -> & Hl);
      rewrite (fetch_add_external_live _ _ _ _ Hl) in H
  | fetch_add_internal _ _ _ = Done _ _ =>
      let Hl := fresh "Hl" in
      destruct (fetch_add_internal_found _ _ _ _ _ H) as (? & ? & -> & Hl);
      rewrite (fetch_add_internal_live _ _ _ _ Hl) in H
  | load_next _ _ = Done _ _ =>
      let Hl := fresh "Hl" in
      destruct (load_next_found _ _ _ _ H) as (? & ? & -> & Hl);
      rewrite (load_next_live _ _ _ Hl) in H
  | load_data _ _ = Done _ _ =>
      let Hl := fresh "Hl" in
      destruct (load_data_found _ _ _ _ H) as (? & ? & -> & Hl);
      rewrite (load_data_live _ _ _ Hl) in H
  | cas_next _ _ _ _ = Done _ _ =>
      let Hl := fresh "Hl" in
      destruct (cas_next_found _ _ _ _ _ _ H) as (? & ? & -> & Hl)
  | free_external_counter (Some _) _ = Done _ _ =>
      let Hl := fresh "Hl" in
      destruct (free_external_counter_found _ _ _ _ H) as (? & Hl);
      rewrite (free_external_counter_live _ _ _ Hl) in H
  | release_internal_counter (Some _) _ = Done _ _ =>
      let Hl := fresh "Hl" in
      destruct (release_internal_counter_found _ _ _ _ H) as (? & Hl);
      rewrite (release_internal_counter_live _ _ _ Hl) in H
  end;
  try (injection H as <- <-).

Lemma fetch_add_external_counts_only p k :
  keeps counts_only (fetch_add_external p k).
Proof.
  intros s a s' H. effect H.
  eapply counts_only_cell; [eassumption|]. intros n' [= <-]. auto.
Qed.

Lemma load_next_counts_only p : keeps counts_only (load_next p).
Proof. intros s a s' H. effect H. apply counts_only_refl. Qed.

Lemma load_data_counts_only p : keeps counts_only (load_data p).
Proof. intros s a s' H. effect H. apply counts_only_refl. Qed.

Lemma cas_slot_counts_only sl e d : keeps counts_only (cas_slot sl e d).
Proof.
  intros s a s'. unfold cas_slot, bind, load_slot, store_slot, ret.
  case_decide; intros [= <- <-].
  - apply counts_only_slot.
  - apply counts_only_refl.
Qed.

Lemma claim_node_counts_only sl : keeps counts_only (claim_node sl).
Proof.
  unfold claim_node.
  apply keeps_bind; [apply counts_only_trans| |intros [l|]].
  - intros s a s' [= _ <-]. apply counts_only_refl.
  - apply keeps_bind; [apply counts_only_trans| |intros _].
    + apply fetch_add_external_counts_only.
    + apply keeps_ret, counts_only_refl.
  - apply keeps_ret, counts_only_refl.
Qed.

Lemma free_external_counter_counts_only p :
  keeps counts_only (free_external_counter p).
Proof.
  intros s a s' H. destruct p as [l|].
  - effect H. eapply counts_only_cell; [eassumption|].
    apply after_free_external_counter_counts.
  - injection H as _ <-. apply counts_only_refl.
Qed.

(** One bind of an operation whose parts all keep [counts_only]. *)
Ltac counts_only_step :=
  first
    [ apply keeps_bind;
      [ apply counts_only_trans
      | first [ apply claim_node_counts_only
              | apply fetch_add_external_counts_only
              | apply load_next_counts_only
              | apply load_data_counts_only
              | apply cas_slot_counts_only
              | apply free_external_counter_counts_only ]
      | intros ? ]
    | apply keeps_ret, counts_only_refl
    | apply keeps_out_of_fuel
    | case_decide
    | match goal with
      | |- keeps _ (match ?x with _ => _ end) => destruct x
      end
    | assumption ].

Lemma pop_counts_only (fuel : nat) (value : option T) :
  keeps counts_only (pop fuel value).
Proof.
  induction fuel as [|fuel IH]; cbn [pop]; repeat counts_only_step.
Qed.

(** ** Every push that returns *)

(** An iteration of [push] that returns found [tail_] on a live node. *)
Lemma push_loop_found_tail (fuel : nat) (node : ptr) (s s' : state) a :
  push_loop (S fuel) node s = Done a s' ->
  exists l n, tail_ s = Some l /\ heap s !! l = Some (Live n).
Proof.
  cbn [push_loop]. intros H.
  apply bind_Done in H as (last & s1 & [= <- <-] & H).
  apply bind_Done in H as (nxt & s2 & H & _).
  apply load_next_found in H as (l & n & Hl & Hn). eauto.
Qed.

Lemma push_loop_returned (fuel : nat) (k : loc) :
  forall (s s' : state) (nk : Node),
  heap s !! k = Some (Live nk) ->
  internal_ref_count nk = 0 ->
  external_ref_count nk = 0 ->
  push_loop fuel (Some k) s = Done tt s' ->
  tail_ s' = Some k /\ heap s' !! k = Some Freed.
Proof.
  induction fuel as [|fuel IH]; intros s s' nk Hk Hi He H; [discriminate|].
  destruct (push_loop_found_tail _ _ _ _ _ H) as (l & n & Ht & Hl).
  destruct (next n) as [m|] eqn:Hn.
  - rewrite (push_loop_help_run _ _ _ _ _ _ Ht Hl Hn) in H.
    eapply IH; [ | exact Hi | exact He | exact H ].
    destruct s. exact Hk.
  - rewrite (push_loop_link_run _ _ _ _ _ _ Ht Hl Hn Hk Hi He) in H.
    injection H as <-. split; [reflexivity|]. cbn [heap].
    apply list_lookup_insert_eq. rewrite length_insert.
    eapply lookup_lt_Some, Hk.
Qed.

Lemma push_returned_run (fuel : nat) (value : T) (s s' : state) :
  push fuel value s = Done tt s' ->
  tail_ s' = Some (length (heap s)) /\
  heap s' !! length (heap s) = Some Freed.
Proof.
  unfold push, new. unfold bind at 1. intros H.
  eapply (push_loop_returned _ _ _ _ Node_default); [ | | | exact H];
    [ rewrite heap_set_heap; apply lookup_new | reflexivity | reflexivity ].
Qed.

(** ** Operations on a queue whose tail has been freed *)

Lemma push_on_freed_tail (fuel : nat) (value : T) (s : state) (k : loc) :
  tail_ s = Some k ->
  heap s !! k = Some Freed ->
  push (S fuel) value s = Fault (UseAfterFree k).
Proof.
  intros Ht Hk. unfold push, new. unfold bind at 1. cbn [push_loop].
  unfold bind at 1, load_slot. destruct s as [h hd tl]. norm.
  cbn [tail_ heap] in Ht, Hk. subst tl.
  unfold bind at 1, load_next, bind at 1, deref. norm.
  rewrite (lookup_old _ _ _ _ Hk). reflexivity.
Qed.

Lemma counts_only_freed s s' k :
  counts_only s s' ->
  heap s !! k = Some Freed ->
  heap s' !! k = Some Freed.
Proof.
  intros [Hlen Hlive] Hk.
  destruct (heap s' !! k) as [[n'|]|] eqn:E.
  - destruct (Hlive _ _ E) as (n & Hn & _). congruence.
  - reflexivity.
  - apply lookup_ge_None in E. apply lookup_lt_Some in Hk. lia.
Qed.

(** The operations [pop] runs before it claims the tail leave [tail_]
    alone. *)
Lemma fetch_add_external_same_tail p k :
  keeps same_tail (fetch_add_external p k).
Proof. intros s a s' H. effect H. reflexivity. Qed.

Lemma load_next_same_tail p : keeps same_tail (load_next p).
Proof. intros s a s' H. effect H. reflexivity. Qed.

Lemma claim_node_same_tail sl : keeps same_tail (claim_node sl).
Proof.
  intros s p s' H. pose proof H as H'.
  apply claim_node_Done in H' as (-> & [(_ & ->) | (l & n & Hp & Hl)]);
    [reflexivity|].
  rewrite (claim_node_live _ _ _ _ Hp Hl) in H. injection H as _ <-.
  reflexivity.
Qed.

(** The operations at the start of an iteration of [pop] return or fault;
    they take no fuel. *)
Lemma fetch_add_external_takes_no_fuel p k s :
  fetch_add_external p k s <> OutOfFuel.
Proof.
  unfold fetch_add_external, bind, deref, write, ret.
  repeat case_match; discriminate.
Qed.

Lemma load_next_takes_no_fuel p s : load_next p s <> OutOfFuel.
Proof.
  unfold load_next, bind, deref, ret. repeat case_match; discriminate.
Qed.

Lemma claim_node_takes_no_fuel sl s : claim_node sl s <> OutOfFuel.
Proof.
  unfold claim_node, bind at 1, load_slot.
  destruct (get_slot sl s); [|discriminate].
  unfold bind.
  destruct (fetch_add_external _ _ _) eqn:E; try discriminate.
  intros _. eapply fetch_add_external_takes_no_fuel, E.
Qed.

Lemma pop_on_freed_tail (fuel : nat) (value : option T) (s : state)
    (k : loc) :
  tail_ s = Some k ->
  heap s !! k = Some Freed ->
  exists f, pop (S fuel) value s = Fault f.
Proof.
  intros Ht Hk. cbn [pop].
  unfold bind at 1.
  destruct (claim_node Head s) as [first s1|f|] eqn:H1;
    [ | eauto | destruct (claim_node_takes_no_fuel _ _ H1) ].
  unfold bind at 1.
  destruct (fetch_add_external first 1 s1) as [x s2|f|] eqn:H2;
    [ | eauto | destruct (fetch_add_external_takes_no_fuel _ _ _ H2) ].
  unfold bind at 1.
  destruct (load_next first s2) as [nxt s3|f|] eqn:H3;
    [ | eauto | destruct (load_next_takes_no_fuel _ _ H3) ].
  unfold bind at 1.
  destruct (claim_node Tail s3) as [last s4|f|] eqn:H4;
    [ | eauto | destruct (claim_node_takes_no_fuel _ _ H4) ].
  exfalso.
  assert (tail_ s3 = Some k) as Ht3.
  { apply claim_node_same_tail in H1. apply fetch_add_external_same_tail in H2.
    apply load_next_same_tail in H3. unfold same_tail in *. congruence. }
  assert (heap s3 !! k = Some Freed) as Hk3.
  { apply claim_node_counts_only in H1.
    apply fetch_add_external_counts_only in H2.
    apply load_next_counts_only in H3.
    eauto using counts_only_freed. }
  apply claim_node_Done in H4 as (-> & [(Hnone & _) | (l & n & Hp & Hl)]).
  - cbn [get_slot] in Hnone. congruence.
  - cbn [get_slot] in Hp. congruence.
Qed.

Lemma destroy_on_freed_tail (fuel : nat) (s : state) (k : loc) :
  tail_ s = Some k ->
  heap s !! k = Some Freed ->
  exists f, destroy (S fuel) s = Fault f.
Proof.
  intros Ht Hk.
  destruct (pop_on_freed_tail fuel None s k Ht Hk) as (f & Hf).
  exists f. unfold destroy. cbn [drain]. unfold bind. rewrite Hf.
  reflexivity.
Qed.

(** ** What push leaves alone *)

Lemma touched_only_refl k s : touched_only k s s.
Proof.
  split; [reflexivity|]. split; [reflexivity|].
  intros l [n|] _ H; eauto 10.
Qed.

Lemma touched_only_trans k s1 s2 s3 :
  touched_only k s1 s2 -> touched_only k s2 s3 -> touched_only k s1 s3.
Proof.
  intros (Hh12 & Hl12 & H12) (Hh23 & Hl23 & H23).
  split; [congruence|]. split; [congruence|].
  intros l c Hne H1. specialize (H12 l c Hne H1). destruct c as [n|].
  - destruct H12 as (n2 & H2 & D2 & I2 & E2 & N2).
    destruct (H23 l _ Hne H2) as (n3 & H3 & D3 & I3 & E3 & N3).
    exists n3. repeat split; try congruence.
    destruct N2 as [N2|[N2 N2']], N3 as [N3|[N3 N3']].
    + left. congruence.
    + right. split; congruence.
    + right. split; congruence.
    + congruence.
  - apply (H23 l _ Hne H12).
Qed.

Lemma touched_only_tail k p s : touched_only k s (set_slot Tail p s).
Proof.
  split; [reflexivity|]. split; [reflexivity|].
  intros l [n|] _ H; eauto 10.
Qed.

Lemma touched_only_at k c s :
  touched_only k s (set_heap (<[k := c]> (heap s)) s).
Proof.
  split; [reflexivity|]. split; [apply length_insert|].
  intros l c' Hne H. rewrite heap_set_heap.
  rewrite list_lookup_insert_ne by congruence.
  destruct c' as [n|]; eauto 10.
Qed.

Lemma touched_only_link k l n s :
  heap s !! l = Some (Live n) ->
  next n = None ->
  touched_only k s
    (set_heap (<[l := Live (set_next (Some k) n)]> (heap s)) s).
Proof.
  intros Hl Hn. split; [reflexivity|]. split; [apply length_insert|].
  intros l' c' Hne H. rewrite heap_set_heap.
  destruct (decide (l = l')) as [<-|Hll].
  - rewrite (lookup_written _ _ _ _ Hl).
    pose proof (eq_trans (eq_sym Hl) H) as E. injection E as <-.
    eexists. repeat split. right. split; [exact Hn|reflexivity].
  - rewrite list_lookup_insert_ne by exact Hll.
    destruct c' as [n'|]; eauto 10.
Qed.

Lemma load_slot_touched_only k sl : keeps (touched_only k) (load_slot sl).
Proof. intros s a s' [= _ <-]. apply touched_only_refl. Qed.

Lemma load_next_touched_only k p : keeps (touched_only k) (load_next p).
Proof. intros s a s' H. effect H. apply touched_only_refl. Qed.

Lemma cas_next_touched_only k p :
  keeps (touched_only k) (cas_next p None (Some k)).
Proof.
  intros s a s' H. effect H. unfold cas_next in H.
  rewrite (bind_step _ _ _ _ _ (deref_live _ _ _ Hl)) in H.
  case_decide.
  - injection H as _ <-. apply touched_only_link; assumption.
  - injection H as _ <-. apply touched_only_refl.
Qed.

Lemma fetch_add_internal_touched_only k z :
  keeps (touched_only k) (fetch_add_internal (Some k) z).
Proof.
  intros s a s' H.
  destruct (fetch_add_internal_found _ _ _ _ _ H) as (l & n & [= <-] & Hl).
  rewrite (fetch_add_internal_live _ _ _ _ Hl) in H. injection H as _ <-.
  apply touched_only_at.
Qed.

Lemma cas_slot_Tail_touched_only k e d :
  keeps (touched_only k) (cas_slot Tail e d).
Proof.
  intros s a s'. unfold cas_slot, bind, load_slot, store_slot, ret.
  case_decide; intros [= <- <-].
  - apply touched_only_tail.
  - apply touched_only_refl.
Qed.

Lemma release_internal_counter_touched_only k :
  keeps (touched_only k) (release_internal_counter (Some k)).
Proof. intros s a s' H. effect H. apply touched_only_at. Qed.

Ltac touched_only_step k :=
  first
    [ apply keeps_bind;
      [ apply touched_only_trans
      | first [ apply load_slot_touched_only
              | apply load_next_touched_only
              | apply cas_next_touched_only
              | apply fetch_add_internal_touched_only
              | apply cas_slot_Tail_touched_only
              | apply release_internal_counter_touched_only ]
      | intros ? ]
    | apply keeps_ret, touched_only_refl
    | apply keeps_out_of_fuel
    | case_decide
    | match goal with
      | |- keeps _ (match ?x with _ => _ end) => destruct x
      | |- keeps _ (if ?b then _ else _) => destruct b
      end
    | assumption ].

Lemma push_loop_touched_only (fuel : nat) (k : loc) :
  keeps (touched_only k) (push_loop fuel (Some k)).
Proof.
  induction fuel as [|fuel IH]; cbn [push_loop];
    repeat touched_only_step k.
Qed.

Lemma push_kept_run (fuel : nat) (value : T) (s s' : state) :
  push fuel value s = Done tt s' ->
  head_ s' = head_ s /\
  length (heap s') = S (length (heap s)) /\
  forall l c, heap s !! l = Some c ->
    match c with
    | Freed => heap s' !! l = Some Freed
    | Live n =>
        exists n', heap s' !! l = Some (Live n') /\
                   data n' = data n /\
                   internal_ref_count n' = internal_ref_count n /\
                   external_ref_count n' = external_ref_count n /\
                   (next n' = next n \/
                    next n = None /\ next n' = Some (length (heap s)))
    end.
Proof.
  unfold push, new. unfold bind at 1. intros H.
  apply push_loop_touched_only in H as (Hh & Hlen & Hold).
  split; [exact Hh|]. split.
  - rewrite Hlen, heap_set_heap, length_app. cbn [length]. lia.
  - intros l c Hl. apply Hold.
    + eapply old_is_not_new, Hl.
    + rewrite heap_set_heap. eapply lookup_old, Hl.
Qed.

(** ** A pop that reports empty has not moved the head *)

Lemma fetch_add_external_same_head p k :
  keeps same_head (fetch_add_external p k).
Proof. intros s a s' H. effect H. reflexivity. Qed.

Lemma load_next_same_head p : keeps same_head (load_next p).
Proof. intros s a s' H. effect H. reflexivity. Qed.

Lemma load_data_same_head p : keeps same_head (load_data p).
Proof. intros s a s' H. effect H. reflexivity. Qed.

Lemma claim_node_same_head sl : keeps same_head (claim_node sl).
Proof.
  intros s p s' H. pose proof H as H'.
  apply claim_node_Done in H' as (-> & [(_ & ->) | (l & n & Hp & Hl)]);
    [reflexivity|].
  rewrite (claim_node_live _ _ _ _ Hp Hl) in H. injection H as _ <-.
  reflexivity.
Qed.

Lemma free_external_counter_same_head p :
  keeps same_head (free_external_counter p).
Proof.
  intros s a s' H. destruct p as [l|].
  - effect H. reflexivity.
  - injection H as _ <-. reflexivity.
Qed.

Lemma cas_slot_Tail_same_head e d : keeps same_head (cas_slot Tail e d).
Proof.
  intros s a s'. unfold cas_slot, bind, load_slot, store_slot, ret.
  case_decide; intros [= <- <-]; reflexivity.
Qed.

(** A compare-exchange that failed changed nothing. *)
Lemma cas_slot_failed sl e d s p s' :
  cas_slot sl e d s = Done (false, p) s' -> s' = s.
Proof.
  unfold cas_slot, bind, load_slot, store_slot, ret.
  case_decide; [intros [=] | intros [= _ <-]; reflexivity].
Qed.

(** Split the leading bind of a returned [pop], and note that its first
    operation kept [head_]. *)
Ltac head_step H :=
  lazymatch type of H with
  | bind (cas_slot Head _ _) _ _ = Done _ _ =>
      let a := fresh "a" in
      let s1 := fresh "s" in
      let Hc := fresh "Hc" in
      apply bind_Done in H as ([[|] a] & s1 & Hc & H);
      [ | apply cas_slot_failed in Hc ]
  | bind _ _ _ = Done _ _ =>
      let a := fresh "a" in
      let s1 := fresh "s" in
      let Hc := fresh "Hc" in
      apply bind_Done in H as (a & s1 & Hc & H);
      first [ apply claim_node_same_head in Hc
            | apply fetch_add_external_same_head in Hc
            | apply load_next_same_head in Hc
            | apply load_data_same_head in Hc
            | apply free_external_counter_same_head in Hc
            | apply cas_slot_Tail_same_head in Hc ]
  | (if decide ?P then _ else _) _ = Done _ _ => destruct (decide P)
  | (match ?x with Some _ => _ | None => _ end) _ = Done _ _ => destruct x
  end.

Lemma pop_false_same_head (fuel : nat) (value : option T) :
  forall (s s' : state) (value' : option T),
  pop fuel value s = Done (false, value') s' ->
  head_ s' = head_ s.
Proof.
  induction fuel as [|fuel IH]; intros s s' value' H; [discriminate|].
  cbn [pop] in H.
  repeat head_step H; unfold same_head in *;
    try (apply IH in H); unfold ret in H; try congruence.
Qed.

(** ** A pop that returns a value took it from behind the head *)

Lemma pop_kept_refl s : pop_kept s s.
Proof. split; [reflexivity|apply counts_only_refl]. Qed.

Lemma pop_kept_trans s1 s2 s3 :
  pop_kept s1 s2 -> pop_kept s2 s3 -> pop_kept s1 s3.
Proof.
  intros [H12 C12] [H23 C23]. split; [congruence|].
  eapply counts_only_trans; eassumption.
Qed.

Lemma kept_both {A} (c : M A) :
  keeps same_head c -> keeps counts_only c -> keeps pop_kept c.
Proof. intros Hh Hc s a s' H. split; [eapply Hh, H|eapply Hc, H]. Qed.

Lemma popped_from_earlier s s1 payload s' :
  pop_kept s s1 -> popped_from s1 payload s' -> popped_from s payload s'.
Proof.
  intros [Hh [_ Hc]] (l & n1 & x & nx1 & Hl & Hn1 & Hx & Hnx1 & Hp & Hs').
  destruct (Hc _ _ Hn1) as (n & Hn & _ & Nn).
  destruct (Hc _ _ Hnx1) as (nx & Hnx & Dx & _).
  exists l, n, x, nx. repeat split; first [assumption | congruence].
Qed.

Lemma cas_slot_succeeded sl e d s p s' :
  cas_slot sl e d s = Done (true, p) s' -> s' = set_slot sl d s.
Proof.
  unfold cas_slot, bind, load_slot, store_slot, ret.
  case_decide; [intros [= _ <-]; reflexivity | intros [=]].
Qed.

(** Split the leading bind of a returned [pop]; [Hk] collects what has been
    kept since the iteration began. *)
Ltac kept_step H Hk :=
  lazymatch type of H with
  | bind (cas_slot Head _ _) _ _ = Done _ _ =>
      let a := fresh "a" in
      let s1 := fresh "s" in
      let Hc := fresh "Hcas" in
      apply bind_Done in H as ([[|] a] & s1 & Hc & H);
      [ apply cas_slot_succeeded in Hc
      | apply cas_slot_failed in Hc; subst s1 ]
  | bind (load_data _) _ _ = Done _ _ =>
      let a := fresh "a" in
      let s1 := fresh "s" in
      let Hc := fresh "Hdata" in
      apply bind_Done in H as (a & s1 & Hc & H)
  | bind ?c _ _ = Done _ _ =>
      let a := fresh "a" in
      let s1 := fresh "s" in
      let Hc := fresh "Hc" in
      apply bind_Done in H as (a & s1 & Hc & H);
      first
        [ apply (kept_both _ (free_external_counter_same_head _)
                   (free_external_counter_counts_only _)) in Hc
        | apply (kept_both _ (cas_slot_Tail_same_head _ _)
                   (cas_slot_counts_only _ _ _)) in Hc ];
      first [ pose proof (pop_kept_trans _ _ _ Hk Hc) as Hk'; clear Hk Hc;
              rename Hk' into Hk
            | idtac ]
  | (if decide ?P then _ else _) _ = Done _ _ => destruct (decide P)
  | (match ?x with Some _ => _ | None => _ end) _ = Done _ _ => destruct x
  end.

Lemma pop_true_run (fuel : nat) (value : option T) :
  forall (s s' : state) (payload : option T),
  pop fuel value s = Done (true, payload) s' ->
  popped_from s payload s'.
Proof.
  induction fuel as [|fuel IH]; intros s s' payload H; [discriminate|].
  cbn [pop] in H.
  apply bind_Done in H as (first & s1 & H1 & H).
  apply bind_Done in H as (x0 & s2 & H2 & H).
  apply bind_Done in H as (nxt & s3 & H3 & H).
  apply bind_Done in H as (last & s4 & H4 & H).
  (* the head node, live before the iteration, and its successor *)
  pose proof (kept_both _ (claim_node_same_head _)
                (claim_node_counts_only _) _ _ _ H1) as K1.
  pose proof (kept_both _ (fetch_add_external_same_head _ _)
                (fetch_add_external_counts_only _ _) _ _ _ H2) as K2.
  pose proof (kept_both _ (load_next_same_head _)
                (load_next_counts_only _) _ _ _ H3) as K3.
  pose proof (kept_both _ (claim_node_same_head _)
                (claim_node_counts_only _) _ _ _ H4) as K4.
  pose proof (pop_kept_trans _ _ _ K1 K2) as K12.
  pose proof (pop_kept_trans _ _ _ K12 (pop_kept_trans _ _ _ K3 K4)) as Hk.
  apply claim_node_Done in H1 as (Hfirst & _). cbn [get_slot] in Hfirst.
  destruct (load_next_found _ _ _ _ H3) as (l & n2 & -> & Hl2).
  rewrite (load_next_live _ _ _ Hl2) in H3. injection H3 as <- _.
  destruct K12 as [_ [_ C12]].
  destruct (C12 _ _ Hl2) as (n & Hl & _ & Hnext).
  clear H2 H4 K1 K2 K3 K4 C12.
  (* the branches *)
  repeat kept_step H Hk;
    try (unfold ret in H; discriminate);
    try (eapply popped_from_earlier; [exact Hk | eapply IH, H]).
  (* the one that advances the head *)
  subst. destruct (load_data_found _ _ _ _ Hdata) as (x & nx4 & [= <-] & Hx4).
  rewrite (load_data_live _ _ _ Hx4) in Hdata. injection Hdata as <- <-.
  unfold ret in H. injection H as <- <-.
  destruct Hk as [_ [_ C4]], Hc as [Hh5 _], Hc0 as [Hh6 _].
  assert (heap s4 !! l0 = Some (Live nx4)) as Hx by (destruct s4; exact Hx4).
  destruct (C4 _ _ Hx) as (nx & Hnx & Dx & _).
  exists l, n, l0, nx.
  repeat split; first [assumption | congruence | idtac].
  rewrite Hh6, Hh5. reflexivity.
Qed.

(** ** A pop that reports empty found nothing behind the head *)

Lemma head_is_last_earlier s s1 :
  pop_kept s s1 -> head_is_last s1 -> head_is_last s.
Proof.
  intros [Hh [_ Hc]] (l & n1 & Hl & Hn1 & Hx).
  destruct (Hc _ _ Hn1) as (n & Hn & _ & Nn).
  exists l, n. repeat split; first [assumption | congruence].
Qed.

Lemma pop_false_run (fuel : nat) (value : option T) :
  forall (s s' : state) (value' : option T),
  pop fuel value s = Done (false, value') s' ->
  head_is_last s.
Proof.
  induction fuel as [|fuel IH]; intros s s' value' H; [discriminate|].
  cbn [pop] in H.
  apply bind_Done in H as (first & s1 & H1 & H).
  apply bind_Done in H as (x0 & s2 & H2 & H).
  apply bind_Done in H as (nxt & s3 & H3 & H).
  apply bind_Done in H as (last & s4 & H4 & H).
  pose proof (kept_both _ (claim_node_same_head _)
                (claim_node_counts_only _) _ _ _ H1) as K1.
  pose proof (kept_both _ (fetch_add_external_same_head _ _)
                (fetch_add_external_counts_only _ _) _ _ _ H2) as K2.
  pose proof (kept_both _ (load_next_same_head _)
                (load_next_counts_only _) _ _ _ H3) as K3.
  pose proof (kept_both _ (claim_node_same_head _)
                (claim_node_counts_only _) _ _ _ H4) as K4.
  pose proof (pop_kept_trans _ _ _ K1 K2) as K12.
  pose proof (pop_kept_trans _ _ _ K12 (pop_kept_trans _ _ _ K3 K4)) as Hk.
  apply claim_node_Done in H1 as (Hfirst & _). cbn [get_slot] in Hfirst.
  destruct (load_next_found _ _ _ _ H3) as (l & n2 & -> & Hl2).
  rewrite (load_next_live _ _ _ Hl2) in H3. injection H3 as <- _.
  destruct K12 as [_ [_ C12]].
  destruct (C12 _ _ Hl2) as (n & Hl & _ & Hnext).
  clear H2 H4 K1 K2 K3 K4 C12.
  repeat kept_step H Hk;
    try (unfold ret in H; discriminate);
    try (eapply head_is_last_earlier; [exact Hk | eapply IH, H]).
  exists l, n. repeat split; first [assumption | congruence].
Qed.

(** ** A claim followed by a release *)

Lemma claim_release_node_ref_run (sl : slot) (s : state) (l : loc)
    (n : Node) :
  get_slot sl s = Some l ->
  heap s !! l = Some (Live n) ->
  0 <= external_ref_count n ->
  external_ref_count n + 1 < UINT_MODULUS ->
  (let* node := claim_node sl in release_node_ref node) s
  = Done tt
      (set_heap
         (<[l := if decide (external_ref_count n = 0 /\
                            internal_ref_count n = 0)
                 then Freed else Live n]> (heap s)) s).
Proof.
  intros Hsl Hl He0 He1.
  rewrite (bind_step _ _ _ _ _ (claim_node_live _ _ _ _ Hsl Hl)).
  erewrite release_node_ref_live; cycle 1.
  { rewrite heap_set_heap. eapply lookup_written, Hl. }
  unfold after_release_node_ref. destruct n as [d nx i e]. norm.
  cbn [external_ref_count] in He0, He1. one_insertion. unwrap.
  repeat case_decide; try reflexivity; try (exfalso; lia).
  replace (e + 1 - 1) with e by lia. reflexivity.
Qed.

Lemma claim_free_external_counter_run (sl : slot) (s : state) (l : loc)
    (n : Node) :
  get_slot sl s = Some l ->
  heap s !! l = Some (Live n) ->
  0 <= external_ref_count n ->
  external_ref_count n + 1 < UINT_MODULUS ->
  (let* node := claim_node sl in free_external_counter node) s
  = Done tt
      (set_heap
         (<[l := if decide (external_ref_count n = 0)
                 then
                   if decide (internal_ref_count n = 1)
                   then Freed
                   else Live (set_internal
                                (wrap (internal_ref_count n - 1)) n)
                 else Live n]> (heap s)) s).
Proof.
  intros Hsl Hl He0 He1.
  rewrite (bind_step _ _ _ _ _ (claim_node_live _ _ _ _ Hsl Hl)).
  erewrite free_external_counter_live; cycle 1.
  { rewrite heap_set_heap. eapply lookup_written, Hl. }
  unfold after_free_external_counter. destruct n as [d nx i e]. norm.
  cbn [external_ref_count] in He0, He1. one_insertion. unwrap.
  repeat case_decide; try reflexivity; try (exfalso; lia).
  - subst e. reflexivity.
  - replace (e + 1 - 1) with e by lia. reflexivity.
Qed.

(** ** pop on a queue whose tail lags behind *)

Lemma pop_lagging_run (fuel : nat) (value : option T) (s : state)
    (l m : loc) (n nm : Node) :
  head_ s = Some l ->
  tail_ s = Some l ->
  l <> m ->
  heap s !! l = Some (Live n) ->
  next n = Some m ->
  heap s !! m = Some (Live nm) ->
  0 <= external_ref_count n ->
  external_ref_count n + 3 < UINT_MODULUS ->
  0 <= external_ref_count nm ->
  external_ref_count nm + 1 < UINT_MODULUS ->
  pop (S (S fuel)) value s
  = Done (true, data nm)
      {| heap :=
           <[l := Live (set_external (external_ref_count n + 2) n)]>
             (<[m := after_free_external_counter
                       (set_external (external_ref_count nm + 1) nm)]>
                (heap s));
         head_ := Some m;
         tail_ := Some m |}.
Proof.
  intros Hh Ht Hne Hl Hn Hm He0 He3 Hm0 Hm1.
  rewrite (pop_help_run _ _ _ _ _ _ Hh Ht Hl Hn He0 He3).
  erewrite (pop_advance_run fuel value _ l m m
              (set_external (external_ref_count n + 1) n) nm nm);
    cycle 1.
  - reflexivity.
  - reflexivity.
  - exact Hne.
  - cbn [heap]. eapply lookup_written, Hl.
  - cbn [heap]. rewrite list_lookup_insert_ne by exact Hne. exact Hm.
  - cbn [heap]. rewrite list_lookup_insert_ne by exact Hne. exact Hm.
  - destruct n. exact Hn.
  - destruct n. norm. cbn [external_ref_count] in He0. lia.
  - destruct n. norm. cbn [external_ref_count] in He3. lia.
  - exact Hm0.
  - exact Hm1.
  - destruct n as [d nx i e]. norm.
    rewrite (list_insert_insert_ne _ m l) by congruence. one_insertion.
    replace (e + 1 + 1) with (e + 2) by lia. reflexivity.
Qed.

(** * The operations, as their callers see them *)

(** ** Reclamation *)

(** X1: [release_node_ref] on a live node takes one off the external
    count, and deletes the node exactly when that count was 1 and the
    internal count is 0; no other cell and neither entry point changes. *)
Theorem release_node_ref_frees_at_zero_zero
    (s : state) (l : loc) (n : Node) :
  heap s !! l = Some (Live n) ->
  release_node_ref (Some l) s
  = Done tt
      (set_heap
         (<[l := if decide (external_ref_count n = 1 /\
                            internal_ref_count n = 0)
                 then Freed
                 else Live (set_external
                              (wrap (external_ref_count n - 1)) n)]>
            (heap s)) s).
Proof. exact (release_node_ref_live s l n). Qed.

(** X2: [release_internal_counter] on a live node takes one off the
    internal count, and deletes the node exactly when that count was 1 and
    the external count is 0. *)
Theorem release_internal_counter_frees_at_zero_zero
    (s : state) (l : loc) (n : Node) :
  heap s !! l = Some (Live n) ->
  release_internal_counter (Some l) s
  = Done tt
      (set_heap
         (<[l := if decide (internal_ref_count n = 1 /\
                            external_ref_count n = 0)
                 then Freed
                 else Live (set_internal
                              (wrap (internal_ref_count n - 1)) n)]>
            (heap s)) s).
Proof. exact (release_internal_counter_live s l n). Qed.

(** X3: when [free_external_counter] gives up the last external hold on a
    node whose internal count is already 0, the internal count wraps round
    to 4294967295 and the node stays allocated. *)
Theorem free_external_counter_underflow (s : state) (l : loc) (n : Node) :
  heap s !! l = Some (Live n) ->
  external_ref_count n = 1 ->
  internal_ref_count n = 0 ->
  free_external_counter (Some l) s
  = Done tt
      (set_heap
         (<[l := Live {| data := data n; next := next n;
                         internal_ref_count := 4294967295;
                         external_ref_count := 0 |}]> (heap s)) s).
Proof.
  intros Hl He Hi. rewrite (free_external_counter_live _ _ _ Hl).
  unfold after_free_external_counter. rewrite He, Hi. reflexivity.
Qed.

(** X4: a claim on an entry point followed by [release_node_ref] leaves the
    state as it was, unless both counts of the node were 0, in which case
    the node has been deleted. *)
Theorem claim_then_release_node_ref
    (sl : slot) (s : state) (l : loc) (n : Node) :
  get_slot sl s = Some l ->
  heap s !! l = Some (Live n) ->
  0 <= external_ref_count n ->
  external_ref_count n + 1 < UINT_MODULUS ->
  (let* node := claim_node sl in release_node_ref node) s
  = Done tt
      (set_heap
         (<[l := if decide (external_ref_count n = 0 /\
                            internal_ref_count n = 0)
                 then Freed else Live n]> (heap s)) s).
Proof. exact (claim_release_node_ref_run sl s l n). Qed.

(** X5: a claim on an entry point followed by [free_external_counter]
    leaves the state as it was only if the node had another external hold;
    on a node with no other hold it takes an internal reference away, and
    deletes the node if that was the only one. *)
Theorem claim_then_free_external_counter
    (sl : slot) (s : state) (l : loc) (n : Node) :
  get_slot sl s = Some l ->
  heap s !! l = Some (Live n) ->
  0 <= external_ref_count n ->
  external_ref_count n + 1 < UINT_MODULUS ->
  (let* node := claim_node sl in free_external_counter node) s
  = Done tt
      (set_heap
         (<[l := if decide (external_ref_count n = 0)
                 then
                   if decide (internal_ref_count n = 1)
                   then Freed
                   else Live (set_internal
                                (wrap (internal_ref_count n - 1)) n)
                 else Live n]> (heap s)) s).
Proof. exact (claim_free_external_counter_run sl s l n). Qed.

(** ** Construction and teardown *)

(** X6: whatever the heap holds, the constructor allocates one node with
    no payload, no successor, internal count 1 and external count 0, and
    makes [head_] and [tail_] reference it; the cells that were there are
    untouched. *)
Theorem LockFreeQueue_makes_sentinel (s : state) :
  LockFreeQueue s
  = Done tt
      {| heap :=
           heap s ++ [Live {| data := None; next := None;
                              internal_ref_count := 1;
                              external_ref_count := 0 |}];
         head_ := Some (length (heap s));
         tail_ := Some (length (heap s)) |}.
Proof. exact (LockFreeQueue_run s). Qed.

(** X7: on a queue whose head node is also the tail and has no successor,
    the destructor returns after one draining [pop] and deletes the head
    node, whatever its two counts are. *)
Theorem destroy_empty_queue (fuel : nat) (s : state) (l : loc) (n : Node) :
  head_ s = Some l ->
  tail_ s = Some l ->
  heap s !! l = Some (Live n) ->
  next n = None ->
  0 <= external_ref_count n ->
  external_ref_count n + 3 < UINT_MODULUS ->
  destroy (S fuel) s = Done tt (set_heap (<[l := Freed]> (heap s)) s).
Proof. exact (destroy_empty_run fuel s l n). Qed.

(** ** pop *)

(** X8: on a queue whose head node is also the tail and has no successor,
    [pop] returns [false] in its first iteration, leaves the output object
    alone, and leaves the head node with one external hold more than it
    had; nothing else changes. *)
Theorem pop_on_empty_queue (fuel : nat) (value : option T) (s : state)
    (l : loc) (n : Node) :
  head_ s = Some l ->
  tail_ s = Some l ->
  heap s !! l = Some (Live n) ->
  next n = None ->
  0 <= external_ref_count n ->
  external_ref_count n + 3 < UINT_MODULUS ->
  pop (S fuel) value s
  = Done (false, value)
      (set_heap
         (<[l := Live (set_external (external_ref_count n + 1) n)]>
            (heap s)) s).
Proof. exact (pop_empty_run fuel value s l n). Qed.

(** X9: [count] pops in a row on such a queue all return [false], and the
    head node ends with [count] more external holds. *)
Theorem pops_on_empty_queue (fuel count : nat) (value : option T)
    (s : state) (l : loc) (n : Node) :
  head_ s = Some l ->
  tail_ s = Some l ->
  heap s !! l = Some (Live n) ->
  next n = None ->
  0 <= external_ref_count n ->
  external_ref_count n + Z.of_nat count + 2 < UINT_MODULUS ->
  pops (S fuel) count value s
  = Done (replicate count false)
      (set_heap
         (<[l := Live (set_external
                         (external_ref_count n + Z.of_nat count) n)]>
            (heap s)) s).
Proof. exact (pops_empty_run fuel count value s l n). Qed.

(** X10: when [head_] and [tail_] reference different live nodes and the
    head node has a live successor [x], [pop] returns [true] in its first
    iteration with the payload of [x], and [head_] references [x].  The old
    head keeps its internal reference and one more external hold than it
    had; the tail node has gone through the combined release. *)
Theorem pop_advances_head (fuel : nat) (value : option T) (s : state)
    (l m x : loc) (nl nm nx : Node) :
  head_ s = Some l ->
  tail_ s = Some m ->
  l <> m ->
  heap s !! l = Some (Live nl) ->
  heap s !! m = Some (Live nm) ->
  heap s !! x = Some (Live nx) ->
  next nl = Some x ->
  0 <= external_ref_count nl ->
  external_ref_count nl + 2 < UINT_MODULUS ->
  0 <= external_ref_count nm ->
  external_ref_count nm + 1 < UINT_MODULUS ->
  pop (S fuel) value s
  = Done (true, data nx)
      {| heap :=
           <[l := Live (set_external (external_ref_count nl + 1) nl)]>
             (<[m := after_free_external_counter
                       (set_external (external_ref_count nm + 1) nm)]>
                (heap s));
         head_ := Some x;
         tail_ := Some m |}.
Proof. exact (pop_advance_run fuel value s l m x nl nm nx). Qed.

(** X11: when [tail_] still references the head node although a node [m]
    is linked behind it, [pop] first swings [tail_] to [m] and then, in its
    second iteration, advances [head_] to [m] and returns the payload of
    [m]; the old head ends with two more external holds. *)
Theorem pop_helps_lagging_tail (fuel : nat) (value : option T) (s : state)
    (l m : loc) (n nm : Node) :
  head_ s = Some l ->
  tail_ s = Some l ->
  l <> m ->
  heap s !! l = Some (Live n) ->
  next n = Some m ->
  heap s !! m = Some (Live nm) ->
  0 <= external_ref_count n ->
  external_ref_count n + 3 < UINT_MODULUS ->
  0 <= external_ref_count nm ->
  external_ref_count nm + 1 < UINT_MODULUS ->
  pop (S (S fuel)) value s
  = Done (true, data nm)
      {| heap :=
           <[l := Live (set_external (external_ref_count n + 2) n)]>
             (<[m := after_free_external_counter
                       (set_external (external_ref_count nm + 1) nm)]>
                (heap s));
         head_ := Some m;
         tail_ := Some m |}.
Proof. exact (pop_lagging_run fuel value s l m n nm). Qed.

(** X12: whenever [pop] returns [true], the head node was live and had a
    live successor, the value returned is the payload of that successor,
    and [head_] now references the successor. *)
Theorem pop_true_takes_successor (fuel : nat) (value : option T)
    (s s' : state) (payload : option T) :
  pop fuel value s = Done (true, payload) s' ->
  exists l n x nx,
    head_ s = Some l /\
    heap s !! l = Some (Live n) /\
    next n = Some x /\
    heap s !! x = Some (Live nx) /\
    payload = data nx /\
    head_ s' = Some x.
Proof. exact (pop_true_run fuel value s s' payload). Qed.

(** X13: whenever [pop] returns [false], the head node was live and had no
    successor, and [head_] is where it was. *)
Theorem pop_false_saw_no_successor (fuel : nat) (value : option T)
    (s s' : state) (value' : option T) :
  pop fuel value s = Done (false, value') s' ->
  (exists l n,
     head_ s = Some l /\ heap s !! l = Some (Live n) /\ next n = None) /\
  head_ s' = head_ s.
Proof.
  intros H. split.
  - exact (pop_false_run fuel value s s' value' H).
  - exact (pop_false_same_head fuel value s s' value' H).
Qed.

(** X14: whatever [pop] returns, it has allocated nothing, and every node
    that is live afterwards was live before with the same payload and the
    same successor: [pop] writes reference counts and deletes nodes, and
    nothing else in the heap. *)
Theorem pop_only_writes_counts (fuel : nat) (value : option T)
    (s s' : state) (r : bool * option T) :
  pop fuel value s = Done r s' ->
  length (heap s') = length (heap s) /\
  forall l n', heap s' !! l = Some (Live n') ->
    exists n, heap s !! l = Some (Live n) /\
              data n' = data n /\ next n' = next n.
Proof. exact (pop_counts_only fuel value s r s'). Qed.

(** ** push *)

(** X15: when [tail_] references a live node without successor, [push]
    returns after one iteration: that node's [next] references the new
    cell, [tail_] references the new cell, and the new cell is already
    freed.  [head_] and every other cell are as before. *)
Theorem push_links_and_frees (fuel : nat) (value : T) (s : state)
    (l : loc) (n : Node) :
  tail_ s = Some l ->
  heap s !! l = Some (Live n) ->
  next n = None ->
  push (S fuel) value s
  = Done tt
      {| heap := <[l := Live (set_next (Some (length (heap s))) n)]> (heap s)
                 ++ [Freed];
         head_ := head_ s;
         tail_ := Some (length (heap s)) |}.
Proof. exact (push_run fuel value s l n). Qed.

(** X16: when [tail_] references a node whose successor [m] is the true
    last node, [push] first swings [tail_] to [m] and links its node behind
    [m] in the second iteration, with the same outcome for the new cell. *)
Theorem push_helps_lagging_tail (fuel : nat) (value : T) (s : state)
    (l m : loc) (n nm : Node) :
  tail_ s = Some l ->
  heap s !! l = Some (Live n) ->
  next n = Some m ->
  heap s !! m = Some (Live nm) ->
  next nm = None ->
  push (S (S fuel)) value s
  = Done tt
      {| heap := <[m := Live (set_next (Some (length (heap s))) nm)]> (heap s)
                 ++ [Freed];
         head_ := head_ s;
         tail_ := Some (length (heap s)) |}.
Proof. exact (push_lagging_run fuel value s l m n nm). Qed.

(** X17: whenever [push] returns, from any state and after any number of
    iterations, [tail_] references the cell it allocated and that cell is
    freed. *)
Theorem push_returns_with_tail_freed (fuel : nat) (value : T)
    (s s' : state) :
  push fuel value s = Done tt s' ->
  tail_ s' = Some (length (heap s)) /\
  heap s' !! length (heap s) = Some Freed.
Proof. exact (push_returned_run fuel value s s'). Qed.

(** X18: whenever [push] returns, [head_] is where it was, the heap has
    exactly one cell more, every cell that was freed is still freed, and
    every node that was live is still live with the payload and the two
    counts it had; its successor is the one it had, or it had none and now
    has the new cell: [push] never overwrites a link. *)
Theorem push_keeps_old_cells (fuel : nat) (value : T) (s s' : state) :
  push fuel value s = Done tt s' ->
  head_ s' = head_ s /\
  length (heap s') = S (length (heap s)) /\
  forall l c, heap s !! l = Some c ->
    match c with
    | Freed => heap s' !! l = Some Freed
    | Live n =>
        exists n', heap s' !! l = Some (Live n') /\
                   data n' = data n /\
                   internal_ref_count n' = internal_ref_count n /\
                   external_ref_count n' = external_ref_count n /\
                   (next n' = next n \/
                    next n = None /\ next n' = Some (length (heap s)))
    end.
Proof. exact (push_kept_run fuel value s s'). Qed.

(** ** After a push *)

(** X19: a [push] on the state a returned [push] left faults: it reads the
    [next] field of the cell the earlier [push] freed. *)
Theorem push_after_push_faults (fuel fuel' : nat) (v w : T)
    (s s' : state) :
  push fuel v s = Done tt s' ->
  push (S fuel') w s' = Fault (UseAfterFree (length (heap s))).
Proof.
  intros H. apply push_returned_run in H as [Ht Hk].
  exact (push_on_freed_tail fuel' w s' _ Ht Hk).
Qed.

(** X20: a [pop] on the state a returned [push] left faults in its first
    iteration. *)
Theorem pop_after_push_faults (fuel fuel' : nat) (v : T)
    (value : option T) (s s' : state) :
  push fuel v s = Done tt s' ->
  exists f, pop (S fuel') value s' = Fault f.
Proof.
  intros H. apply push_returned_run in H as [Ht Hk].
  exact (pop_on_freed_tail fuel' value s' _ Ht Hk).
Qed.

(** X21: and so does the destructor. *)
Theorem destroy_after_push_faults (fuel fuel' : nat) (v : T)
    (s s' : state) :
  push fuel v s = Done tt s' ->
  exists f, destroy (S fuel') s' = Fault f.
Proof.
  intros H. apply push_returned_run in H as [Ht Hk].
  exact (destroy_on_freed_tail fuel' s' _ Ht Hk).
Qed.

(** ** After the last element *)

Lemma pop_on_freed_head (fuel : nat) (value : option T) (s : state)
    (k : loc) :
  head_ s = Some k ->
  heap s !! k = Some Freed ->
  pop (S fuel) value s = Fault (UseAfterFree k).
Proof.
  intros Hh Hk. cbn [pop].
  unfold bind at 1, claim_node, bind at 1, load_slot. cbn [get_slot].
  rewrite Hh. unfold bind at 1, fetch_add_external, bind at 1, deref.
  rewrite Hk. reflexivity.
Qed.

(** X22: on a queue with one element behind the sentinel, with [tail_] on
    that element and nobody else holding it, the [pop] that returns the
    element also deletes its node, which [head_] then references; the next
    [pop] faults on it. *)
Theorem pop_after_last_element_faults (fuel fuel' : nat)
    (value value' : option T) (s : state) (l m : loc) (nl nm : Node) :
  head_ s = Some l ->
  tail_ s = Some m ->
  l <> m ->
  heap s !! l = Some (Live nl) ->
  next nl = Some m ->
  heap s !! m = Some (Live nm) ->
  internal_ref_count nm = 1 ->
  external_ref_count nm = 0 ->
  0 <= external_ref_count nl ->
  external_ref_count nl + 2 < UINT_MODULUS ->
  (let* '(_, _) := pop (S fuel) value in pop (S fuel') value') s
  = Fault (UseAfterFree m).
Proof.
  intros Hh Ht Hne Hl Hn Hm Hi He Hl0 Hl2.
  erewrite bind_step; cycle 1.
  { apply (pop_advance_run fuel value s l m m nl nm nm); auto.
    - rewrite He. vm_compute. discriminate.
    - rewrite He. reflexivity. }
  cbn beta iota. apply pop_on_freed_head; [reflexivity|]. cbn [heap].
  rewrite list_lookup_insert_ne by exact Hne.
  unfold after_free_external_counter, set_external.
  cbn [external_ref_count internal_ref_count]. rewrite He, Hi.
  eapply lookup_written, Hm.
Qed.

(** ** Whenever the destructor returns *)

Lemma drain_returned (fuel : nat) :
  forall (dummy_value : option T) (s s' : state),
  drain fuel dummy_value s = Done tt s' ->
  (exists l, head_ s' = Some l) /\
  length (heap s') = length (heap s).
Proof.
  induction fuel as [|fuel IH]; intros v s s' H; [discriminate|].
  cbn [drain] in H.
  apply bind_Done in H as ([[|] v'] & s1 & Hpop & H).
  - apply IH in H as [Hh Hlen]. split; [exact Hh|].
    apply pop_counts_only in Hpop as [Hlen1 _]. congruence.
  - injection H as <-. split.
    + destruct (pop_false_run _ _ _ _ _ Hpop) as (l & n & Hl & _).
      exists l. rewrite (pop_false_same_head _ _ _ _ _ Hpop). exact Hl.
    + apply pop_counts_only in Hpop as [Hlen1 _]. exact Hlen1.
Qed.

(** X23: whenever the destructor returns, the cell [head_] references has
    been deleted, and the heap has as many cells as before. *)
Theorem destroy_deletes_head (fuel : nat) (s s' : state) :
  destroy fuel s = Done tt s' ->
  (exists l, head_ s' = Some l /\ heap s' !! l = Some Freed) /\
  length (heap s') = length (heap s).
Proof.
  unfold destroy. intros H.
  apply bind_Done in H as ([] & s1 & Hdrain & H).
  apply drain_returned in Hdrain as [(l & Hl) Hlen].
  unfold bind at 1, load_slot in H. cbn [get_slot] in H. rewrite Hl in H.
  unfold delete in H.
  destruct (heap s1 !! l) as [[n|]|] eqn:E; try discriminate.
  injection H as <-. split.
  - exists l. split; [destruct s1; exact Hl|]. cbn [heap set_heap].
    eapply lookup_written, E.
  - cbn [heap set_heap]. rewrite length_insert. exact Hlen.
Qed.

End Queue.

Arguments Node : clear implicits.
Arguments cell : clear implicits.
Arguments state : clear implicits.
Arguments outcome : clear implicits.
Arguments M : clear implicits.
Arguments Done {T A} a s.
Arguments Fault {T A} f.
Arguments OutOfFuel {T A}.

(** * Instances at [T := Z] *)

(** The last external hold on a node with one internal reference: the
    combined release frees it. *)
Lemma free_external_counter_spec_witness :
  heap (held_sentinel (Some 7)) !! 0%nat = Some (Live (held_node (Some 7)))
  /\ counters_in_range (held_node (Some 7))
  /\ free_external_counter (Some 0%nat) (held_sentinel (Some 7))
     = Done tt (set_heap [Freed] (held_sentinel (Some 7))).
Proof.
  assert (Hrange : counters_in_range (held_node (Some 7))).
  { unfold counters_in_range, UINT_MODULUS. cbn. lia. }
  split; [reflexivity|]. split; [exact Hrange|].
  apply (free_external_counter_spec
           (held_sentinel (Some 7)) 0%nat (held_node (Some 7)));
    [reflexivity | exact Hrange].
Defined.

(** A pop that loses the race for the head and finds the queue empty on
    its second round: one iteration is not enough for it to return, the
    output object still holds 5 when it returns [false], and the head it
    leaves is the one the other consumer installed. *)
Lemma pop_false_output_unchanged_witness :
  pop_interleaved 1 (Some 5) lost_race (contended_queue (Some 7))
  = OutOfFuel
  /\ pop_interleaved 2 (Some 5) lost_race (contended_queue (Some 7))
     = Done ((false, Some 5), [])
         {| heap :=
              [ Live {| data := None; next := Some 1%nat;
                        internal_ref_count := 1;
                        external_ref_count := 2 |};
                Live {| data := Some 7; next := None;
                        internal_ref_count := 1;
                        external_ref_count := 2 |} ];
            head_ := Some 1%nat;
            tail_ := Some 1%nat |}
  /\ Some 5 = Some 5 :> option Z.
Proof.
  assert (H : pop_interleaved 2 (Some 5) lost_race
                (contended_queue (Some 7))
              = Done ((false, Some 5), [])
                  {| heap :=
                       [ Live {| data := None; next := Some 1%nat;
                                 internal_ref_count := 1;
                                 external_ref_count := 2 |};
                         Live {| data := Some 7; next := None;
                                 internal_ref_count := 1;
                                 external_ref_count := 2 |} ];
                     head_ := Some 1%nat;
                     tail_ := Some 1%nat |})
    by reflexivity.
  split; [reflexivity|]. split; [exact H|].
  exact (pop_false_output_unchanged
           2 (Some 5) lost_race [] (contended_queue (Some 7)) _
           (Some 5) H).
Defined.

(** ** Reclamation *)

Lemma release_node_ref_frees_at_zero_zero_witness :
  heap (held_once (Some 7)) !! 0%nat = Some (Live (last_hold (Some 7)))
  /\ release_node_ref (Some 0%nat) (held_once (Some 7))
     = Done tt (set_heap [Freed] (held_once (Some 7))).
Proof.
  split; [reflexivity|].
  apply (release_node_ref_frees_at_zero_zero
           (held_once (Some 7)) 0%nat (last_hold (Some 7))).
  reflexivity.
Defined.

Lemma release_internal_counter_frees_at_zero_zero_witness :
  heap (referenced_once (Some 7)) !! 0%nat
  = Some (Live (last_reference (Some 7)))
  /\ release_internal_counter (Some 0%nat) (referenced_once (Some 7))
     = Done tt (set_heap [Freed] (referenced_once (Some 7))).
Proof.
  split; [reflexivity|].
  apply (release_internal_counter_frees_at_zero_zero
           (referenced_once (Some 7)) 0%nat (last_reference (Some 7))).
  reflexivity.
Defined.

Lemma free_external_counter_underflow_witness :
  heap (held_once (Some 7)) !! 0%nat = Some (Live (last_hold (Some 7)))
  /\ external_ref_count (last_hold (Some 7)) = 1
  /\ internal_ref_count (last_hold (Some 7)) = 0
  /\ free_external_counter (Some 0%nat) (held_once (Some 7))
     = Done tt
         (set_heap
            [Live {| data := Some 7; next := None;
                     internal_ref_count := 4294967295;
                     external_ref_count := 0 |}]
            (held_once (Some 7))).
Proof.
  repeat (split; [reflexivity|]).
  apply (free_external_counter_underflow
           (held_once (Some 7)) 0%nat (last_hold (Some 7))); reflexivity.
Defined.

Lemma claim_then_release_node_ref_witness :
  get_slot Head (referenced_once (Some 7)) = Some 0%nat
  /\ heap (referenced_once (Some 7)) !! 0%nat
     = Some (Live (last_reference (Some 7)))
  /\ 0 <= external_ref_count (last_reference (Some 7))
  /\ external_ref_count (last_reference (Some 7)) + 1 < UINT_MODULUS
  /\ bind (claim_node Head) release_node_ref (referenced_once (Some 7))
     = Done tt (referenced_once (Some 7)).
Proof.
  assert (0 <= external_ref_count (last_reference (Some 7))) as H0
    by (vm_compute; discriminate).
  assert (external_ref_count (last_reference (Some 7)) + 1 < UINT_MODULUS) as H1
    by reflexivity.
  split; [reflexivity|]. split; [reflexivity|].
  split; [exact H0|]. split; [exact H1|].
  apply (claim_then_release_node_ref
           Head (referenced_once (Some 7)) 0%nat (last_reference (Some 7)));
    [reflexivity | reflexivity | exact H0 | exact H1].
Defined.

Lemma claim_then_free_external_counter_witness :
  get_slot Tail (referenced_once (Some 7)) = Some 0%nat
  /\ heap (referenced_once (Some 7)) !! 0%nat
     = Some (Live (last_reference (Some 7)))
  /\ 0 <= external_ref_count (last_reference (Some 7))
  /\ external_ref_count (last_reference (Some 7)) + 1 < UINT_MODULUS
  /\ bind (claim_node Tail) free_external_counter
       (referenced_once (Some 7))
     = Done tt (set_heap [Freed] (referenced_once (Some 7))).
Proof.
  assert (0 <= external_ref_count (last_reference (Some 7))) as H0
    by (vm_compute; discriminate).
  assert (external_ref_count (last_reference (Some 7)) + 1 < UINT_MODULUS) as H1
    by reflexivity.
  split; [reflexivity|]. split; [reflexivity|].
  split; [exact H0|]. split; [exact H1|].
  apply (claim_then_free_external_counter
           Tail (referenced_once (Some 7)) 0%nat (last_reference (Some 7)));
    [reflexivity | reflexivity | exact H0 | exact H1].
Defined.

(** ** Teardown and pop *)

Lemma destroy_empty_queue_witness :
  head_ (@fresh_queue Z) = Some 0%nat
  /\ tail_ (@fresh_queue Z) = Some 0%nat
  /\ heap (@fresh_queue Z) !! 0%nat = Some (Live (last_reference None))
  /\ next (@last_reference Z None) = None
  /\ 0 <= external_ref_count (@last_reference Z None)
  /\ external_ref_count (@last_reference Z None) + 3 < UINT_MODULUS
  /\ destroy 1 (@fresh_queue Z) = Done tt (set_heap [Freed] fresh_queue).
Proof.
  assert (0 <= external_ref_count (@last_reference Z None)) as H0
    by (vm_compute; discriminate).
  assert (external_ref_count (@last_reference Z None) + 3 < UINT_MODULUS)
    as H3 by reflexivity.
  repeat (split; [first [reflexivity | exact H0 | exact H3]|]).
  apply (destroy_empty_queue 0 fresh_queue 0%nat (last_reference None));
    [reflexivity | reflexivity | reflexivity | reflexivity
    | exact H0 | exact H3].
Defined.

Lemma pop_on_empty_queue_witness :
  head_ (@fresh_queue Z) = Some 0%nat
  /\ tail_ (@fresh_queue Z) = Some 0%nat
  /\ heap (@fresh_queue Z) !! 0%nat = Some (Live (last_reference None))
  /\ next (@last_reference Z None) = None
  /\ 0 <= external_ref_count (@last_reference Z None)
  /\ external_ref_count (@last_reference Z None) + 3 < UINT_MODULUS
  /\ pop 1 (Some 5) (@fresh_queue Z)
     = Done (false, Some 5) (single_node (held_node None)).
Proof.
  assert (0 <= external_ref_count (@last_reference Z None)) as H0
    by (vm_compute; discriminate).
  assert (external_ref_count (@last_reference Z None) + 3 < UINT_MODULUS)
    as H3 by reflexivity.
  repeat (split; [first [reflexivity | exact H0 | exact H3]|]).
  apply (pop_on_empty_queue 0 (Some 5) fresh_queue 0%nat
           (last_reference None));
    [reflexivity | reflexivity | reflexivity | reflexivity
    | exact H0 | exact H3].
Defined.

Lemma pops_on_empty_queue_witness :
  head_ (@fresh_queue Z) = Some 0%nat
  /\ tail_ (@fresh_queue Z) = Some 0%nat
  /\ heap (@fresh_queue Z) !! 0%nat = Some (Live (last_reference None))
  /\ next (@last_reference Z None) = None
  /\ 0 <= external_ref_count (@last_reference Z None)
  /\ external_ref_count (@last_reference Z None) + Z.of_nat 3 + 2
     < UINT_MODULUS
  /\ pops 1 3 (Some 5) (@fresh_queue Z)
     = Done [false; false; false]
         (single_node (set_external 3 (last_reference None))).
Proof.
  assert (0 <= external_ref_count (@last_reference Z None)) as H0
    by (vm_compute; discriminate).
  assert (external_ref_count (@last_reference Z None) + Z.of_nat 3 + 2
          < UINT_MODULUS) as H3 by reflexivity.
  repeat (split; [first [reflexivity | exact H0 | exact H3]|]).
  apply (pops_on_empty_queue 0 3 (Some 5) fresh_queue 0%nat
           (last_reference None));
    [reflexivity | reflexivity | reflexivity | reflexivity
    | exact H0 | exact H3].
Defined.

Lemma pop_advances_head_witness :
  head_ (one_linked_node (Some 7)) = Some 0%nat
  /\ tail_ (one_linked_node (Some 7)) = Some 1%nat
  /\ 0%nat <> 1%nat
  /\ heap (one_linked_node (Some 7)) !! 0%nat = Some (Live linking_sentinel)
  /\ heap (one_linked_node (Some 7)) !! 1%nat
     = Some (Live (last_reference (Some 7)))
  /\ next (@linking_sentinel Z) = Some 1%nat
  /\ 0 <= external_ref_count (@linking_sentinel Z)
  /\ external_ref_count (@linking_sentinel Z) + 2 < UINT_MODULUS
  /\ 0 <= external_ref_count (last_reference (Some 7))
  /\ external_ref_count (last_reference (Some 7)) + 1 < UINT_MODULUS
  /\ pop 1 None (one_linked_node (Some 7))
     = Done (true, Some 7)
         {| heap := [Live (set_external 1 linking_sentinel); Freed];
            head_ := Some 1%nat;
            tail_ := Some 1%nat |}.
Proof.
  assert (0%nat <> 1%nat) as Hne by lia.
  assert (0 <= external_ref_count (@linking_sentinel Z)) as Hl0
    by (vm_compute; discriminate).
  assert (external_ref_count (@linking_sentinel Z) + 2 < UINT_MODULUS)
    as Hl2 by reflexivity.
  assert (0 <= external_ref_count (last_reference (Some 7))) as Hm0
    by (vm_compute; discriminate).
  assert (external_ref_count (last_reference (Some 7)) + 1 < UINT_MODULUS)
    as Hm1 by reflexivity.
  repeat (split;
          [first [reflexivity | exact Hne | exact Hl0 | exact Hl2
                 | exact Hm0 | exact Hm1]|]).
  apply (pop_advances_head 0 None (one_linked_node (Some 7))
           0%nat 1%nat 1%nat linking_sentinel
           (last_reference (Some 7)) (last_reference (Some 7)));
    first [reflexivity | exact Hne | exact Hl0 | exact Hl2
          | exact Hm0 | exact Hm1].
Defined.

Lemma pop_helps_lagging_tail_witness :
  head_ (lagging_tail (Some 7)) = Some 0%nat
  /\ tail_ (lagging_tail (Some 7)) = Some 0%nat
  /\ 0%nat <> 1%nat
  /\ heap (lagging_tail (Some 7)) !! 0%nat = Some (Live linking_sentinel)
  /\ next (@linking_sentinel Z) = Some 1%nat
  /\ heap (lagging_tail (Some 7)) !! 1%nat
     = Some (Live (last_reference (Some 7)))
  /\ 0 <= external_ref_count (@linking_sentinel Z)
  /\ external_ref_count (@linking_sentinel Z) + 3 < UINT_MODULUS
  /\ 0 <= external_ref_count (last_reference (Some 7))
  /\ external_ref_count (last_reference (Some 7)) + 1 < UINT_MODULUS
  /\ pop 2 None (lagging_tail (Some 7))
     = Done (true, Some 7)
         {| heap := [Live (set_external 2 linking_sentinel); Freed];
            head_ := Some 1%nat;
            tail_ := Some 1%nat |}.
Proof.
  assert (0%nat <> 1%nat) as Hne by lia.
  assert (0 <= external_ref_count (@linking_sentinel Z)) as Hl0
    by (vm_compute; discriminate).
  assert (external_ref_count (@linking_sentinel Z) + 3 < UINT_MODULUS)
    as Hl3 by reflexivity.
  assert (0 <= external_ref_count (last_reference (Some 7))) as Hm0
    by (vm_compute; discriminate).
  assert (external_ref_count (last_reference (Some 7)) + 1 < UINT_MODULUS)
    as Hm1 by reflexivity.
  repeat (split;
          [first [reflexivity | exact Hne | exact Hl0 | exact Hl3
                 | exact Hm0 | exact Hm1]|]).
  apply (pop_helps_lagging_tail 0 None (lagging_tail (Some 7))
           0%nat 1%nat linking_sentinel (last_reference (Some 7)));
    first [reflexivity | exact Hne | exact Hl0 | exact Hl3
          | exact Hm0 | exact Hm1].
Defined.

Lemma pop_true_takes_successor_witness :
  pop 1 None (one_linked_node (Some 7))
  = Done (true, Some 7)
      {| heap := [Live (set_external 1 linking_sentinel); Freed];
         head_ := Some 1%nat;
         tail_ := Some 1%nat |}
  /\ exists l n x nx,
       head_ (one_linked_node (Some 7)) = Some l /\
       heap (one_linked_node (Some 7)) !! l = Some (Live n) /\
       next n = Some x /\
       heap (one_linked_node (Some 7)) !! x = Some (Live nx) /\
       Some 7 = data nx /\
       Some 1%nat = Some x.
Proof.
  assert (pop 1 None (one_linked_node (Some 7))
          = Done (true, Some 7)
              {| heap := [Live (set_external 1 linking_sentinel); Freed];
                 head_ := Some 1%nat;
                 tail_ := Some 1%nat |}) as H by reflexivity.
  split; [exact H|].
  exact (pop_true_takes_successor 1 None _ _ (Some 7) H).
Defined.

Lemma pop_false_saw_no_successor_witness :
  pop 1 (Some 5) (@fresh_queue Z)
  = Done (false, Some 5) (single_node (held_node None))
  /\ (exists l n,
        head_ (@fresh_queue Z) = Some l /\
        heap (@fresh_queue Z) !! l = Some (Live n) /\
        next n = None)
  /\ head_ (single_node (@held_node Z None)) = head_ (@fresh_queue Z).
Proof.
  assert (pop 1 (Some 5) (@fresh_queue Z)
          = Done (false, Some 5) (single_node (held_node None))) as H
    by reflexivity.
  split; [exact H|].
  exact (pop_false_saw_no_successor 1 (Some 5) _ _ (Some 5) H).
Defined.

Lemma pop_only_writes_counts_witness :
  pop 1 None (one_linked_node (Some 7))
  = Done (true, Some 7)
      {| heap := [Live (set_external 1 linking_sentinel); Freed];
         head_ := Some 1%nat;
         tail_ := Some 1%nat |}
  /\ length [Live (set_external 1 (@linking_sentinel Z)); Freed]
     = length (heap (one_linked_node (Some 7)))
  /\ forall l n',
       [Live (set_external 1 (@linking_sentinel Z)); Freed] !! l
       = Some (Live n') ->
       exists n, heap (one_linked_node (Some 7)) !! l = Some (Live n) /\
                 data n' = data n /\ next n' = next n.
Proof.
  assert (pop 1 None (one_linked_node (Some 7))
          = Done (true, Some 7)
              {| heap := [Live (set_external 1 linking_sentinel); Freed];
                 head_ := Some 1%nat;
                 tail_ := Some 1%nat |}) as H by reflexivity.
  split; [exact H|].
  exact (pop_only_writes_counts 1 None _ _ _ H).
Defined.

(** ** push *)

Lemma push_links_and_frees_witness :
  tail_ (@fresh_queue Z) = Some 0%nat
  /\ heap (@fresh_queue Z) !! 0%nat = Some (Live (last_reference None))
  /\ next (@last_reference Z None) = None
  /\ push 1 7 fresh_queue = Done tt after_one_push.
Proof.
  repeat (split; [reflexivity|]).
  apply (push_links_and_frees 0 7 fresh_queue 0%nat (last_reference None));
    reflexivity.
Defined.

Lemma push_helps_lagging_tail_witness :
  tail_ (lagging_tail (Some 7)) = Some 0%nat
  /\ heap (lagging_tail (Some 7)) !! 0%nat = Some (Live linking_sentinel)
  /\ next (@linking_sentinel Z) = Some 1%nat
  /\ heap (lagging_tail (Some 7)) !! 1%nat
     = Some (Live (last_reference (Some 7)))
  /\ next (last_reference (Some 7)) = None
  /\ push 2 9 (lagging_tail (Some 7))
     = Done tt
         {| heap := [Live linking_sentinel;
                     Live (set_next (Some 2%nat) (last_reference (Some 7)));
                     Freed];
            head_ := Some 0%nat;
            tail_ := Some 2%nat |}.
Proof.
  repeat (split; [reflexivity|]).
  apply (push_helps_lagging_tail 0 9 (lagging_tail (Some 7))
           0%nat 1%nat linking_sentinel (last_reference (Some 7)));
    reflexivity.
Defined.

Lemma push_returns_with_tail_freed_witness :
  push 1 7 fresh_queue = Done tt after_one_push
  /\ tail_ (@after_one_push Z) = Some (length (heap (@fresh_queue Z)))
  /\ heap (@after_one_push Z) !! length (heap (@fresh_queue Z))
     = Some Freed.
Proof.
  assert (push 1 7 fresh_queue = Done tt after_one_push) as H
    by reflexivity.
  split; [exact H|].
  exact (push_returns_with_tail_freed 1 7 _ _ H).
Defined.

Lemma push_keeps_old_cells_witness :
  push 1 7 fresh_queue = Done tt after_one_push
  /\ head_ (@after_one_push Z) = head_ (@fresh_queue Z)
  /\ length (heap (@after_one_push Z)) = S (length (heap (@fresh_queue Z)))
  /\ forall l c, heap (@fresh_queue Z) !! l = Some c ->
       match c with
       | Freed => heap (@after_one_push Z) !! l = Some Freed
       | Live n =>
           exists n', heap (@after_one_push Z) !! l = Some (Live n') /\
                      data n' = data n /\
                      internal_ref_count n' = internal_ref_count n /\
                      external_ref_count n' = external_ref_count n /\
                      (next n' = next n \/
                       next n = None /\
                       next n' = Some (length (heap (@fresh_queue Z))))
       end.
Proof.
  assert (push 1 7 fresh_queue = Done tt after_one_push) as H
    by reflexivity.
  split; [exact H|].
  exact (push_keeps_old_cells 1 7 _ _ H).
Defined.

Lemma push_after_push_faults_witness :
  push 1 7 fresh_queue = Done tt after_one_push
  /\ push 1 8 after_one_push
     = Fault (UseAfterFree (length (heap (@fresh_queue Z)))).
Proof.
  assert (push 1 7 fresh_queue = Done tt after_one_push) as H
    by reflexivity.
  split; [exact H|].
  exact (push_after_push_faults 1 0 7 8 _ _ H).
Defined.

Lemma pop_after_push_faults_witness :
  push 1 7 fresh_queue = Done tt after_one_push
  /\ exists f, pop 1 None (@after_one_push Z) = Fault f.
Proof.
  assert (push 1 7 fresh_queue = Done tt after_one_push) as H
    by reflexivity.
  split; [exact H|].
  exact (pop_after_push_faults 1 0 7 None _ _ H).
Defined.

Lemma destroy_after_push_faults_witness :
  push 1 7 fresh_queue = Done tt after_one_push
  /\ exists f, destroy 1 (@after_one_push Z) = Fault f.
Proof.
  assert (push 1 7 fresh_queue = Done tt after_one_push) as H
    by reflexivity.
  split; [exact H|].
  exact (destroy_after_push_faults 1 0 7 _ _ H).
Defined.

(** ** After the last element; teardown *)

Lemma pop_after_last_element_faults_witness :
  head_ (one_linked_node (Some 7)) = Some 0%nat
  /\ tail_ (one_linked_node (Some 7)) = Some 1%nat
  /\ 0%nat <> 1%nat
  /\ heap (one_linked_node (Some 7)) !! 0%nat = Some (Live linking_sentinel)
  /\ next (@linking_sentinel Z) = Some 1%nat
  /\ heap (one_linked_node (Some 7)) !! 1%nat
     = Some (Live (last_reference (Some 7)))
  /\ internal_ref_count (last_reference (Some 7)) = 1
  /\ external_ref_count (last_reference (Some 7)) = 0
  /\ 0 <= external_ref_count (@linking_sentinel Z)
  /\ external_ref_count (@linking_sentinel Z) + 2 < UINT_MODULUS
  /\ bind (pop 1 None) (fun '(_, _) => pop 1 None)
       (one_linked_node (Some 7))
     = Fault (UseAfterFree 1%nat).
Proof.
  assert (0%nat <> 1%nat) as Hne by lia.
  assert (0 <= external_ref_count (@linking_sentinel Z)) as Hl0
    by (vm_compute; discriminate).
  assert (external_ref_count (@linking_sentinel Z) + 2 < UINT_MODULUS)
    as Hl2 by reflexivity.
  repeat (split;
          [first [reflexivity | exact Hne | exact Hl0 | exact Hl2]|]).
  apply (pop_after_last_element_faults 0 0 None None
           (one_linked_node (Some 7)) 0%nat 1%nat
           linking_sentinel (last_reference (Some 7)));
    first [reflexivity | exact Hne | exact Hl0 | exact Hl2].
Defined.

Lemma destroy_deletes_head_witness :
  destroy 1 (@fresh_queue Z) = Done tt (set_heap [Freed] fresh_queue)
  /\ (exists l, head_ (set_heap [Freed] (@fresh_queue Z)) = Some l /\
                heap (set_heap [Freed] (@fresh_queue Z)) !! l = Some Freed)
  /\ length (heap (set_heap [Freed] (@fresh_queue Z)))
     = length (heap (@fresh_queue Z)).
Proof.
  assert (destroy 1 (@fresh_queue Z) = Done tt (set_heap [Freed] fresh_queue))
    as H by reflexivity.
  split; [exact H|].
  exact (destroy_deletes_head 1 _ _ H).
Defined.
